(** * The taxi-trip preprocessing notebook: schema standardisation and merge

    A shallow embedding of [notebooks/processing_1.ipynb]: the function
    [standardize_schema], the accumulation loop that folds the standardised
    tables together with [unionByName], and the linear run of the notebook's
    code cells from [SparkSession.builder ... getOrCreate()] to [spark.stop()].

    The notebook is glue around the dataframe engine.  The engine's
    operations it calls ([col], [cast], [withColumn], [withColumnRenamed],
    [unionByName], [spark.read.parquet], [write.parquet]) are modelled after
    the engine's documented behaviour, restricted to the five column types
    that the notebook's printed schemas show. *)

From Stdlib Require Import ZArith List String Ascii Bool Lia Permutation.
From Stdlib Require Import Floats.SpecFloat.
Import ListNotations.
Local Open Scope string_scope.
Local Open Scope list_scope.
Local Open Scope Z_scope.

(** ** Column types, fields and values *)

(** The types printed by [printSchema] in the notebook:
    [integer], [long], [double], [string], [timestamp_ntz]. *)
Inductive DataType : Type :=
  | IntegerType
  | LongType
  | DoubleType
  | StringType
  | TimestampNTZType.

Definition DataType_eqb (a b : DataType) : bool :=
  match a, b with
  | IntegerType, IntegerType
  | LongType, LongType
  | DoubleType, DoubleType
  | StringType, StringType
  | TimestampNTZType, TimestampNTZType => true
  | _, _ => false
  end.

Definition isNumeric (t : DataType) : bool :=
  match t with
  | IntegerType | LongType | DoubleType => true
  | _ => false
  end.

(** Every field printed by the notebook is [nullable = true]. *)
Record StructField : Type := mkField { name : string; dataType : DataType }.

Definition StructType : Type := list StructField.

(** A cell: SQL [NULL] or a value of one of the five types.  Doubles are
    IEEE 754 binary64 numbers ([prec = 53], [emax = 1024]); timestamps are
    microseconds. *)
Inductive value : Type :=
  | Null
  | IntV (z : Z)
  | LongV (z : Z)
  | DoubleV (d : spec_float)
  | StringV (s : string)
  | TimestampV (micros : Z).

Definition Row : Type := list value.

Record DataFrame : Type := mkDF { schema : StructType; rows : list Row }.

(** [df.columns] and [df.count()]. *)
Definition columns (df : DataFrame) : list string := map name (schema df).
Definition count (df : DataFrame) : nat := List.length (rows df).

(** ** Errors *)

Inductive AnalysisError : Type :=
  | UNRESOLVED_COLUMN (c : string)
  | CANNOT_RESOLVE_COLUMN_NAME (c : string)
  | AMBIGUOUS_REFERENCE (c : string)
  | DATATYPE_MISMATCH (from to : DataType)
  | COLUMN_ALREADY_EXISTS (c : string)
  | NUM_COLUMNS_MISMATCH (l r : nat)
  | INCOMPATIBLE_COLUMN_TYPE (c : string) (l r : DataType)
  | PATH_NOT_FOUND (path : string)
  | UNABLE_TO_INFER_SCHEMA (path : string).

Inductive exn : Type :=
  | AnalysisException (e : AnalysisError)
  | AttributeError (obj attr : string)
  | FileNotFoundError (path : string)
  | IOError (path : string).

Inductive result (A : Type) : Type :=
  | Ok (a : A)
  | Raise (e : exn).
Arguments Ok {A} a.
Arguments Raise {A} e.

Definition bind {A B : Type} (m : result A) (k : A -> result B) : result B :=
  match m with
  | Ok a => k a
  | Raise e => Raise e
  end.

Notation "x <- m ;; k" := (bind m (fun x => k))
  (at level 61, m at next level, right associativity).

Definition isOk {A : Type} (m : result A) : bool :=
  match m with Ok _ => true | Raise _ => false end.

(** ** Name resolution

    The session built by the notebook sets three options
    ([spark.sql.repl.eagerEval.enabled], [spark.sql.parquet.cacheMetadata],
    [spark.sql.session.timeZone]) and leaves [spark.sql.caseSensitive] at its
    default, [false]: column names are compared ignoring case. *)

Definition caseSensitive : bool := false.

Definition lower_ascii (c : ascii) : ascii :=
  let n := N_of_ascii c in
  if ((65 <=? n) && (n <=? 90))%N then ascii_of_N (n + 32) else c.

Fixpoint lower (s : string) : string :=
  match s with
  | EmptyString => EmptyString
  | String c s' => String (lower_ascii c) (lower s')
  end.

Definition key (s : string) : string :=
  if caseSensitive then s else lower s.

Definition resolver (a b : string) : bool := String.eqb (key a) (key b).

(** The attributes of a schema that a name resolves to. *)
Definition candidates (s : StructType) (c : string) : list StructField :=
  filter (fun f => resolver (name f) c) s.

(** The cell of row [r] under the first attribute that [c] resolves to. *)
Fixpoint get (s : StructType) (r : Row) (c : string) : value :=
  match s, r with
  | f :: s', x :: r' => if resolver (name f) c then x else get s' r' c
  | _, _ => Null
  end.

(** ** Casts *)

(** Which casts the analyser accepts, on the five types: every type casts to
    itself and to [string]; numeric types cast to each other; strings cast to
    everything; [timestamp_ntz] does not cast to a numeric type, nor a
    numeric type to [timestamp_ntz]. *)
Definition canCast (from to : DataType) : bool :=
  match from, to with
  | _, StringType => true
  | StringType, _ => true
  | TimestampNTZType, TimestampNTZType => true
  | TimestampNTZType, _ => false
  | _, TimestampNTZType => false
  | _, _ => true
  end.

Definition Int_MinValue : Z := - 2 ^ 31.
Definition Int_MaxValue : Z := 2 ^ 31 - 1.
Definition Long_MinValue : Z := - 2 ^ 63.
Definition Long_MaxValue : Z := 2 ^ 63 - 1.

(** [(int) l] on a long: the low 32 bits, read as a signed number. *)
Definition long_to_int (z : Z) : Z :=
  (z + 2 ^ 31) mod 2 ^ 32 - 2 ^ 31.

(** An integer as a double: rounded to nearest, ties to even. *)
Definition integral_to_double (z : Z) : spec_float :=
  binary_normalize 53 1024 z 0 false.

(** A double as an integer of the range [lo .. hi]: [NaN] is 0, the value is
    truncated towards zero and saturates at the ends of the range. *)
Definition double_to_integral (lo hi : Z) (d : spec_float) : Z :=
  match d with
  | S754_nan => 0
  | S754_zero _ => 0
  | S754_infinity true => lo
  | S754_infinity false => hi
  | S754_finite s m e =>
      let mag := if 0 <=? e then Z.shiftl (Z.pos m) e else Z.shiftr (Z.pos m) (- e) in
      let z := if s then - mag else mag in
      Z.max lo (Z.min hi z)
  end.

Section Engine.

(** Parsing strings and formatting values as strings is the engine's; the
    development is parametric in it. *)
Variable string_cast : DataType -> DataType -> value -> value.

(** The value of [CAST(v AS to)] for a cell [v] of a column of type [from]
    (ANSI mode off: no cast raises on a value). *)
Definition cast_value (from to : DataType) (v : value) : value :=
  if DataType_eqb from to then v else
  match from, to, v with
  | _, _, Null => Null
  | IntegerType, LongType, IntV z => LongV z
  | IntegerType, DoubleType, IntV z => DoubleV (integral_to_double z)
  | LongType, IntegerType, LongV z => IntV (long_to_int z)
  | LongType, DoubleType, LongV z => DoubleV (integral_to_double z)
  | DoubleType, IntegerType, DoubleV d =>
      IntV (double_to_integral Int_MinValue Int_MaxValue d)
  | DoubleType, LongType, DoubleV d =>
      LongV (double_to_integral Long_MinValue Long_MaxValue d)
  | StringType, _, _ => string_cast from to v
  | _, StringType, _ => string_cast from to v
  | _, _, _ => Null
  end.

(** ** Column expressions: [col("c")] and [.cast(t)] *)

Inductive Column : Type :=
  | col (c : string)
  | cast (e : Column) (t : DataType).

(** Analysis of an expression against a schema: its type and its value on
    each row, or the analysis error. *)
Fixpoint analyze (s : StructType) (e : Column) : result (DataType * (Row -> value)) :=
  match e with
  | col c =>
      match candidates s c with
      | [] => Raise (AnalysisException (UNRESOLVED_COLUMN c))
      | [f] => Ok (dataType f, fun r => get s r c)
      | _ :: _ :: _ => Raise (AnalysisException (AMBIGUOUS_REFERENCE c))
      end
  | cast e' t =>
      x <- analyze s e' ;;
      if canCast (fst x) t
      then Ok (t, fun r => cast_value (fst x) t (snd x r))
      else Raise (AnalysisException (DATATYPE_MISMATCH (fst x) t))
  end.

(** ** [withColumn] and [withColumnRenamed] *)

(** The row [r] with [v] in the place of every cell whose attribute
    satisfies [p]. *)
Fixpoint replace_where (p : StructField -> bool) (v : value) (s : StructType) (r : Row) : Row :=
  match s, r with
  | f :: s', x :: r' => (if p f then v else x) :: replace_where p v s' r'
  | _, _ => r
  end.

(** [df.withColumn(colName, e)]: the attributes that [colName] resolves to
    are replaced, in place, by [e AS colName]; when there is none the new
    column is appended. *)
Definition withColumn (colName : string) (e : Column) (df : DataFrame) : result DataFrame :=
  x <- analyze (schema df) e ;;
  let p := fun f => resolver (name f) colName in
  let new := mkField colName (fst x) in
  if existsb p (schema df)
  then Ok (mkDF (map (fun f => if p f then new else f) (schema df))
                (map (fun r => replace_where p (snd x r) (schema df) r) (rows df)))
  else Ok (mkDF (schema df ++ [new])
                (map (fun r => r ++ [snd x r]) (rows df))).

(** [df.withColumnRenamed(existing, new)]: the attributes that [existing]
    resolves to get the name [new]; a table without such an attribute is
    returned as it is. *)
Definition withColumnRenamed (existing new : string) (df : DataFrame) : DataFrame :=
  let p := fun f => resolver (name f) existing in
  if existsb p (schema df)
  then mkDF (map (fun f => if p f then mkField new (dataType f) else f) (schema df))
            (rows df)
  else df.

(** ** [standardize_schema] *)

Definition standardize_schema (df : DataFrame) : result DataFrame :=
  d1 <- withColumn "VendorID" (cast (col "VendorID") IntegerType) df ;;
  d2 <- withColumn "passenger_count" (cast (col "passenger_count") DoubleType) d1 ;;
  d3 <- withColumn "RatecodeID" (cast (col "RatecodeID") DoubleType) d2 ;;
  d4 <- withColumn "PULocationID" (cast (col "PULocationID") IntegerType) d3 ;;
  d5 <- withColumn "DOLocationID" (cast (col "DOLocationID") IntegerType) d4 ;;
  Ok (withColumnRenamed "Airport_fee" "airport_fee" d5).

(** ** [unionByName] *)

(** The first name of a list that occurs again, up to the resolver, later
    in the list. *)
Fixpoint duplicated (l : list string) : option string :=
  match l with
  | [] => None
  | x :: l' => if existsb (resolver x) l' then Some x else duplicated l'
  end.

Definition checkColumnNameDuplication (s : StructType) : result unit :=
  match duplicated (map name s) with
  | Some c => Raise (AnalysisException (COLUMN_ALREADY_EXISTS c))
  | None => Ok tt
  end.

(** The common type that a set operation gives two columns: numeric types
    widen along [integer < long < double], a string column absorbs the
    other type, and [timestamp_ntz] has no common type with a number. *)
Definition findWiderTypeForTwo (a b : DataType) : option DataType :=
  match a, b with
  | StringType, _ | _, StringType => Some StringType
  | TimestampNTZType, TimestampNTZType => Some TimestampNTZType
  | TimestampNTZType, _ | _, TimestampNTZType => None
  | DoubleType, _ | _, DoubleType => Some DoubleType
  | LongType, _ | _, LongType => Some LongType
  | IntegerType, IntegerType => Some IntegerType
  end.

(** One aligned column of a union: the left attribute, the right attribute
    of the same name and the type of the result. *)
Record aligned : Type :=
  mkAligned { lattr : StructField; rattr : StructField; widened : DataType }.

(** For each left attribute, in the left order, the right attribute that
    its name resolves to. *)
Fixpoint compareAndAddFields (ls rs : StructType) : result (list (StructField * StructField)) :=
  match ls with
  | [] => Ok []
  | lf :: ls' =>
      match find (fun rf => resolver (name lf) (name rf)) rs with
      | None => Raise (AnalysisException (CANNOT_RESOLVE_COLUMN_NAME (name lf)))
      | Some rf => ps <- compareAndAddFields ls' rs ;; Ok ((lf, rf) :: ps)
      end
  end.

(** The type of each column of the result. *)
Fixpoint widenSetOperationTypes (ps : list (StructField * StructField)) : result (list aligned) :=
  match ps with
  | [] => Ok []
  | (lf, rf) :: ps' =>
      match findWiderTypeForTwo (dataType lf) (dataType rf) with
      | None =>
          Raise (AnalysisException
                   (INCOMPATIBLE_COLUMN_TYPE (name lf) (dataType lf) (dataType rf)))
      | Some t => al <- widenSetOperationTypes ps' ;; Ok (mkAligned lf rf t :: al)
      end
  end.

(** A left row, cell by cell cast to the types of the result. *)
Fixpoint widen_row (al : list aligned) (r : Row) : Row :=
  match al, r with
  | a :: al', x :: r' => cast_value (dataType (lattr a)) (widened a) x :: widen_row al' r'
  | _, _ => r
  end.

(** A right row, reordered by name into the left order and cast. *)
Definition project_row (rs : StructType) (al : list aligned) (r : Row) : Row :=
  map (fun a => cast_value (dataType (rattr a)) (widened a) (get rs r (name (rattr a)))) al.

(** [left.unionByName(right)]: all rows of both tables ([UNION ALL]), the
    columns of [right] matched to those of [left] by name. *)
Definition unionByName (left right : DataFrame) : result DataFrame :=
  _ <- checkColumnNameDuplication (schema left) ;;
  _ <- checkColumnNameDuplication (schema right) ;;
  ps <- compareAndAddFields (schema left) (schema right) ;;
  if negb (Nat.eqb (List.length (schema left)) (List.length (schema right)))
  then Raise (AnalysisException
                (NUM_COLUMNS_MISMATCH (List.length (schema left)) (List.length (schema right))))
  else
    al <- widenSetOperationTypes ps ;;
    Ok (mkDF (map (fun a => mkField (name (lattr a)) (widened a)) al)
             (map (widen_row al) (rows left)
              ++ map (project_row (schema right) al) (rows right))).

(** ** The accumulation loop *)

(** The body of the loop on the accumulator [sdf], once the file is read and
    standardised: the first table becomes the accumulator, each later one is
    united with it. *)
Definition accumulate_step (sdf : option DataFrame) (standardized_df : DataFrame)
  : result (option DataFrame) :=
  match sdf with
  | None => Ok (Some standardized_df)
  | Some acc => u <- unionByName acc standardized_df ;; Ok (Some u)
  end.

(** The loop over a list of standardised tables, from the accumulator
    [sdf]. *)
Fixpoint accumulate (sdf : option DataFrame) (tables : list DataFrame)
  : result (option DataFrame) :=
  match tables with
  | [] => Ok sdf
  | t :: tables' => sdf' <- accumulate_step sdf t ;; accumulate sdf' tables'
  end.

(** [merge] of the specification: the loop from the unset accumulator. *)
Definition merge (tables : list DataFrame) : result (option DataFrame) :=
  accumulate None tables.

(** ** The run of the notebook *)

(** What a run finds on disk: the entries of the landing directory
    ([None] when the directory does not exist) and whether the destination
    can be written. *)
Inductive file : Type :=
  | ParquetFile (df : DataFrame)
  | OtherFile.

Record World : Type :=
  mkWorld { landing : option (list (string * file)); destination_writable : bool }.

(** What a run does that can be seen from outside. *)
Inductive event : Type :=
  | SessionCreated
  | ReadParquet (path : string)
  | PrintSchema (s : StructType)
  | PrintShape (num_rows num_columns : nat)
  | WriteParquet (path : string) (df : DataFrame)
  | SessionStopped.

(** The state of a run: whether the session is active, the table under the
    destination path, and the events so far, latest first. *)
Record State : Type :=
  mkState { session_active : bool; destination : option DataFrame; trace : list event }.

Definition initial (previous : option DataFrame) : State :=
  mkState false previous [].

(** Computations of the notebook: they change the state and return a value
    or raise. *)
Definition M (A : Type) : Type := State -> State * result A.

Definition ret {A : Type} (a : A) : M A := fun st => (st, Ok a).

Definition raise {A : Type} (e : exn) : M A := fun st => (st, Raise e).

Definition bindM {A B : Type} (m : M A) (k : A -> M B) : M B :=
  fun st =>
    match m st with
    | (st', Ok a) => k a st'
    | (st', Raise e) => (st', Raise e)
    end.

Notation "x <-- m ;;; k" := (bindM m (fun x => k))
  (at level 61, m at next level, right associativity).

Definition lift {A : Type} (r : result A) : M A := fun st => (st, r).

Definition emit (e : event) : M unit :=
  fun st => (mkState (session_active st) (destination st) (e :: trace st), Ok tt).

Definition data_path : string :=
  "/Users/jennymai/Desktop/data_sci/mast_project1/data/landing".

Definition raw_path : string :=
  "/Users/jennymai/Desktop/data_sci/mast_project1/data/raw".

(** [s.endswith(suffix)] *)
Definition endswith (s suffix : string) : bool :=
  let n := String.length s in
  let k := String.length suffix in
  (k <=? n)%nat && String.eqb (substring (n - k) k s) suffix.

Definition startswith (s prefix : string) : bool :=
  String.eqb (substring 0 (String.length prefix) s) prefix.

(** [os.path.join(a, b)] *)
Definition os_path_join (a b : string) : string :=
  if startswith b "/" then b
  else if String.eqb a "" || endswith a "/" then a ++ b
  else a ++ "/" ++ b.

(** [os.listdir(path)] for the landing directory. *)
Definition os_listdir (w : World) (path : string) : result (list string) :=
  match landing w with
  | Some entries => Ok (map fst entries)
  | None => Raise (FileNotFoundError path)
  end.

(** [[os.path.join(data_path, f) for f in os.listdir(data_path)
      if f.endswith('.parquet')]] *)
Definition parquet_files (w : World) : result (list string) :=
  names <- os_listdir w data_path ;;
  Ok (map (os_path_join data_path) (filter (fun f => endswith f ".parquet") names)).

(** [spark.read.parquet(path)]: the table of the file.  With names compared
    ignoring case, a file with two columns of one name is refused. *)
Definition spark_read_parquet (w : World) (path : string) : result DataFrame :=
  match landing w with
  | None => Raise (AnalysisException (PATH_NOT_FOUND path))
  | Some entries =>
      match find (fun e => String.eqb (os_path_join data_path (fst e)) path) entries with
      | None => Raise (AnalysisException (PATH_NOT_FOUND path))
      | Some (_, OtherFile) => Raise (AnalysisException (UNABLE_TO_INFER_SCHEMA path))
      | Some (_, ParquetFile df) =>
          _ <- checkColumnNameDuplication (schema df) ;; Ok df
      end
  end.

(** [sdf.printSchema()], [shape(sdf)] and [sdf.write.parquet(...)] on the
    accumulator, which is [None] until a file has been read. *)
Definition printSchema (sdf : option DataFrame) : M unit :=
  match sdf with
  | None => raise (AttributeError "NoneType" "printSchema")
  | Some df => emit (PrintSchema (schema df))
  end.

Definition shape (sdf : option DataFrame) : M unit :=
  match sdf with
  | None => raise (AttributeError "NoneType" "count")
  | Some df => emit (PrintShape (count df) (List.length (columns df)))
  end.

Definition write_parquet (w : World) (sdf : option DataFrame) (path : string) : M unit :=
  match sdf with
  | None => raise (AttributeError "NoneType" "write")
  | Some df =>
      if destination_writable w
      then fun st =>
             (mkState (session_active st) (Some df) (WriteParquet path df :: trace st), Ok tt)
      else raise (IOError path)
  end.

(** [SparkSession.builder ... getOrCreate()] and [spark.stop()]. *)
Definition getOrCreate : M unit :=
  fun st => (mkState true (destination st) (SessionCreated :: trace st), Ok tt).

Definition spark_stop : M unit :=
  fun st => (mkState false (destination st) (SessionStopped :: trace st), Ok tt).

(** The first loop: read each file and print its schema. *)
Fixpoint inspect_loop (w : World) (files : list string) : M unit :=
  match files with
  | [] => ret tt
  | f :: files' =>
      _ <-- emit (ReadParquet f) ;;;
      df <-- lift (spark_read_parquet w f) ;;;
      _ <-- emit (PrintSchema (schema df)) ;;;
      inspect_loop w files'
  end.

(** The second loop: read, standardise and accumulate. *)
Fixpoint standardize_loop (w : World) (sdf : option DataFrame) (files : list string)
  : M (option DataFrame) :=
  match files with
  | [] => ret sdf
  | f :: files' =>
      _ <-- emit (ReadParquet f) ;;;
      df <-- lift (spark_read_parquet w f) ;;;
      standardized_df <-- lift (standardize_schema df) ;;;
      sdf' <-- lift (accumulate_step sdf standardized_df) ;;;
      standardize_loop w sdf' files'
  end.

(** The code cells in order; a cell that raises ends the run. *)
Definition notebook (w : World) : M unit :=
  _ <-- getOrCreate ;;;
  files <-- lift (parquet_files w) ;;;
  _ <-- inspect_loop w files ;;;
  files <-- lift (parquet_files w) ;;;
  sdf <-- standardize_loop w None files ;;;
  _ <-- printSchema sdf ;;;
  _ <-- shape sdf ;;;
  _ <-- write_parquet w sdf raw_path ;;;
  spark_stop.

(** ** Vocabulary of the statements *)

(** The five casts of [standardize_schema], in its order. *)
Definition cast_rules : list (string * DataType) :=
  [("VendorID", IntegerType); ("passenger_count", DoubleType);
   ("RatecodeID", DoubleType); ("PULocationID", IntegerType);
   ("DOLocationID", IntegerType)].

(** The chain of [withColumn] calls for a list of casts. *)
Fixpoint cast_all (rules : list (string * DataType)) (df : DataFrame) : result DataFrame :=
  match rules with
  | [] => Ok df
  | (c, t) :: rules' => d <- withColumn c (cast (col c) t) df ;; cast_all rules' d
  end.

(** What one cast, and a list of casts, does to a field. *)
Definition cast_field (c : string) (t : DataType) (f : StructField) : StructField :=
  if resolver (name f) c then mkField c t else f.

Definition field_after (rules : list (string * DataType)) (f : StructField) : StructField :=
  fold_left (fun g rule => cast_field (fst rule) (snd rule) g) rules f.

Definition rename_field (existing new : string) (f : StructField) : StructField :=
  if resolver (name f) existing then mkField new (dataType f) else f.

(** The field that [standardize_schema] makes of a field. *)
Definition standardized_field (f : StructField) : StructField :=
  if resolver (name f) "VendorID" then mkField "VendorID" IntegerType
  else if resolver (name f) "passenger_count" then mkField "passenger_count" DoubleType
  else if resolver (name f) "RatecodeID" then mkField "RatecodeID" DoubleType
  else if resolver (name f) "PULocationID" then mkField "PULocationID" IntegerType
  else if resolver (name f) "DOLocationID" then mkField "DOLocationID" IntegerType
  else if resolver (name f) "Airport_fee" then mkField "airport_fee" (dataType f)
  else f.



(** No two columns have the same name, as in every table that
    [spark.read.parquet] returns. *)
Definition distinct_columns (s : StructType) : Prop :=
  NoDup (map key (map name s)).


(** The table has a column named [c] whose type satisfies [ok]. *)
Definition has_column (df : DataFrame) (c : string) (ok : DataType -> bool) : Prop :=
  exists f, In f (schema df) /\ name f = c /\ ok (dataType f) = true.

(** The table has the five columns that are cast, with types that the
    casts accept. *)
Definition castable_columns (df : DataFrame) : Prop :=
  distinct_columns (schema df) /\
  forall c t, In (c, t) cast_rules -> has_column df c (fun t0 => canCast t0 t).

(** The same, with the types observed in the files: [integer], [long] or
    [double]. *)
Definition expected_columns (df : DataFrame) : Prop :=
  distinct_columns (schema df) /\
  forall c t, In (c, t) cast_rules -> has_column df c isNumeric.

(** A required column is absent: no attribute of the table answers to the
    name of one of the casts. *)
Definition required_absent (df : DataFrame) : Prop :=
  exists c t, In (c, t) cast_rules /\ candidates (schema df) c = [].

(** The columns that answer to the name of a cast have a type that the cast
    accepts. *)
Definition castable_where_present (df : DataFrame) : Prop :=
  forall f c t, In f (schema df) -> In (c, t) cast_rules ->
                resolver (name f) c = true -> canCast (dataType f) t = true.

(** The rows of a table seen through a list of column names
    ([df.select(cs).collect()]). *)
Definition select (cs : list string) (df : DataFrame) : list Row :=
  map (fun r => map (get (schema df) r) cs) (rows df).

(** Column [j] of a table, top to bottom. *)
Definition column_at (j : nat) (df : DataFrame) : list (option value) :=
  map (fun r => nth_error r j) (rows df).

(** A right row in the order of the left columns. *)
Definition reorder (ls rs : StructType) (r : Row) : Row :=
  map (fun lf => get rs r (name lf)) ls.

(** The tables of a list have the columns of [s], in any order. *)
Definition uniform (s : StructType) (tables : list DataFrame) : Prop :=
  distinct_columns s /\ Forall (fun t => Permutation s (schema t)) tables.

(** The schema that the notebook prints for the combined table. *)
Definition standard_schema : StructType :=
  [mkField "VendorID" IntegerType;
   mkField "tpep_pickup_datetime" TimestampNTZType;
   mkField "tpep_dropoff_datetime" TimestampNTZType;
   mkField "passenger_count" DoubleType;
   mkField "trip_distance" DoubleType;
   mkField "RatecodeID" DoubleType;
   mkField "store_and_fwd_flag" StringType;
   mkField "PULocationID" IntegerType;
   mkField "DOLocationID" IntegerType;
   mkField "payment_type" LongType;
   mkField "fare_amount" DoubleType;
   mkField "extra" DoubleType;
   mkField "mta_tax" DoubleType;
   mkField "tip_amount" DoubleType;
   mkField "tolls_amount" DoubleType;
   mkField "improvement_surcharge" DoubleType;
   mkField "total_amount" DoubleType;
   mkField "congestion_surcharge" DoubleType;
   mkField "airport_fee" DoubleType].

(** A field of a source file is a variant of the expected field [e]: the
    same name, or [Airport_fee] for [airport_fee]; the same type, or any of
    the observed numeric types for a column that is cast. *)
Definition variant_of (e f : StructField) : Prop :=
  (name f = name e \/ (name e = "airport_fee" /\ name f = "Airport_fee")) /\
  (dataType f = dataType e \/
   (In (name e, dataType e) cast_rules /\ isNumeric (dataType f) = true)).

(** The table has the expected column set: its fields, in some order, are
    variants of the nineteen expected fields. *)
Definition conforms (df : DataFrame) : Prop :=
  exists l, Permutation l (schema df) /\ Forall2 variant_of standard_schema l.

(** The session of the run has been stopped. *)
Definition released (st : State) : Prop :=
  session_active st = false /\ In SessionStopped (trace st).

(** The rows of a table after the cast of column [c] from [from] to [t]. *)
Definition cast_rows (c : string) (from t : DataType) (df : DataFrame) : list Row :=
  map (fun r => replace_where (fun g => resolver (name g) c)
                              (cast_value from t (get (schema df) r c)) (schema df) r)
      (rows df).

(** The names of the rules are pairwise distinct for the resolver. *)
Definition rules_apart (rules : list (string * DataType)) : Prop :=
  NoDup (map key (map fst rules)).

(** The session has been created and has not been stopped. *)
Definition running (st : State) : Prop :=
  session_active st = true /\ In SessionCreated (trace st) /\
  ~ In SessionStopped (trace st).

(** A computation that leaves a running session running. *)
Definition keeps_running {A : Type} (m : M A) : Prop :=
  forall st st' r, running st -> m st = (st', r) -> running st'.

(** A computation that, from a running session, either returns with the
    session released or raises with the session still running. *)
Definition releases_on_success (m : M unit) : Prop :=
  forall st st' r, running st -> m st = (st', r) ->
    (r = Ok tt /\ released st' /\ In SessionCreated (trace st'))
    \/ ((exists e, r = Raise e) /\ running st').

(** ** Checks that compute *)


Definition castable_where_presentb (df : DataFrame) : bool :=
  forallb (fun f =>
             forallb (fun rule =>
                        implb (resolver (name f) (fst rule)) (canCast (dataType f) (snd rule)))
                     cast_rules)
          (schema df).

(** ** Sample tables *)

(** An engine for the examples, in which no string parses and nothing is
    formatted: none of the examples casts from or to a string. *)
Definition no_string_cast : DataType -> DataType -> value -> value :=
  fun _ _ _ => Null.

Definition dbl (z : Z) : value := DoubleV (integral_to_double z).

(** A table with the schema printed for [yellow_2022_12.parquet]. *)
Definition yellow_2022_12 : DataFrame :=
  mkDF
    [mkField "VendorID" LongType;
     mkField "tpep_pickup_datetime" TimestampNTZType;
     mkField "tpep_dropoff_datetime" TimestampNTZType;
     mkField "passenger_count" DoubleType;
     mkField "trip_distance" DoubleType;
     mkField "RatecodeID" DoubleType;
     mkField "store_and_fwd_flag" StringType;
     mkField "PULocationID" LongType;
     mkField "DOLocationID" LongType;
     mkField "payment_type" LongType;
     mkField "fare_amount" DoubleType;
     mkField "extra" DoubleType;
     mkField "mta_tax" DoubleType;
     mkField "tip_amount" DoubleType;
     mkField "tolls_amount" DoubleType;
     mkField "improvement_surcharge" DoubleType;
     mkField "total_amount" DoubleType;
     mkField "congestion_surcharge" DoubleType;
     mkField "airport_fee" DoubleType]
    [[LongV 2; TimestampV 1669852800000000; TimestampV 1669853700000000; dbl 1; dbl 3;
      dbl 1; StringV "N"; LongV 142; LongV 236; LongV 1; dbl 14; dbl 1; dbl 0; dbl 3; dbl 0; dbl 1;
      dbl 22; dbl 2; dbl 0]].

(** A table with the schema printed for [yellow_2023_04.parquet]. *)
Definition yellow_2023_04 : DataFrame :=
  mkDF
    [mkField "VendorID" IntegerType;
     mkField "tpep_pickup_datetime" TimestampNTZType;
     mkField "tpep_dropoff_datetime" TimestampNTZType;
     mkField "passenger_count" LongType;
     mkField "trip_distance" DoubleType;
     mkField "RatecodeID" LongType;
     mkField "store_and_fwd_flag" StringType;
     mkField "PULocationID" IntegerType;
     mkField "DOLocationID" IntegerType;
     mkField "payment_type" LongType;
     mkField "fare_amount" DoubleType;
     mkField "extra" DoubleType;
     mkField "mta_tax" DoubleType;
     mkField "tip_amount" DoubleType;
     mkField "tolls_amount" DoubleType;
     mkField "improvement_surcharge" DoubleType;
     mkField "total_amount" DoubleType;
     mkField "congestion_surcharge" DoubleType;
     mkField "Airport_fee" DoubleType]
    [[IntV 1; TimestampV 1680307200000000; TimestampV 1680307800000000; LongV 2; dbl 2;
      LongV 1; StringV "N"; IntV 238; IntV 75; LongV 2; dbl 9; dbl 1; dbl 0; dbl 0; dbl 0; dbl 1;
      dbl 11; dbl 0; Null];
     [IntV 2; TimestampV 1680310800000000; TimestampV 1680312600000000; Null; dbl 17;
      LongV 2; Null; IntV 132; IntV 230; LongV 1; dbl 70; dbl 0; dbl 0; dbl 10; dbl 6; dbl 1;
      dbl 90; dbl 2; dbl 1]].

(** [standardize_schema yellow_2023_04], written out. *)
Definition yellow_2023_04_standardized : DataFrame :=
  mkDF standard_schema
    [[IntV 1; TimestampV 1680307200000000; TimestampV 1680307800000000; dbl 2; dbl 2;
      dbl 1; StringV "N"; IntV 238; IntV 75; LongV 2; dbl 9; dbl 1; dbl 0; dbl 0; dbl 0; dbl 1;
      dbl 11; dbl 0; Null];
     [IntV 2; TimestampV 1680310800000000; TimestampV 1680312600000000; Null; dbl 17;
      dbl 2; Null; IntV 132; IntV 230; LongV 1; dbl 70; dbl 0; dbl 0; dbl 10; dbl 6; dbl 1;
      dbl 90; dbl 2; dbl 1]].

(** A table without the column [passenger_count]. *)
Definition no_passenger_count : DataFrame :=
  mkDF [mkField "VendorID" LongType; mkField "RatecodeID" DoubleType;
        mkField "PULocationID" LongType; mkField "DOLocationID" LongType;
        mkField "airport_fee" DoubleType]
       [].

(** A table with the five cast columns, in which [VendorID] is a
    timestamp. *)
Definition timestamp_vendor : DataFrame :=
  mkDF [mkField "VendorID" TimestampNTZType; mkField "passenger_count" DoubleType;
        mkField "RatecodeID" DoubleType; mkField "PULocationID" LongType;
        mkField "DOLocationID" LongType; mkField "airport_fee" DoubleType]
       [[TimestampV 1669852800000000; dbl 1; dbl 1; LongV 142; LongV 236; dbl 0]].

(** The same without the column [passenger_count]. *)
Definition timestamp_vendor_no_passenger_count : DataFrame :=
  mkDF [mkField "VendorID" TimestampNTZType;
        mkField "RatecodeID" DoubleType; mkField "PULocationID" LongType;
        mkField "DOLocationID" LongType; mkField "airport_fee" DoubleType]
       [[TimestampV 1669852800000000; dbl 1; LongV 142; LongV 236; dbl 0]].

(** Three small standardised tables; the third has its columns in another
    order, and its row occurs in the first table too. *)
Definition small_schema : StructType :=
  [mkField "VendorID" IntegerType; mkField "trip_distance" DoubleType;
   mkField "airport_fee" DoubleType].

Definition small_a : DataFrame :=
  mkDF small_schema [[IntV 2; dbl 3; dbl 0]; [IntV 1; dbl 5; dbl 1]].

Definition small_b : DataFrame :=
  mkDF small_schema [[IntV 1; dbl 7; Null]].

Definition small_c : DataFrame :=
  mkDF [mkField "airport_fee" DoubleType; mkField "VendorID" IntegerType;
        mkField "trip_distance" DoubleType]
       [[dbl 0; IntV 2; dbl 3]; [dbl 1; IntV 2; dbl 9]].

(** A landing directory without a parquet file, and one whose only parquet
    file lacks a cast column. *)
Definition world_without_parquet : World :=
  mkWorld (Some [("README.txt", OtherFile)]) true.

Definition world_with_bad_file : World :=
  mkWorld (Some [("yellow_2023_04.parquet", ParquetFile yellow_2023_04);
                 ("yellow_2023_05.parquet", ParquetFile no_passenger_count)])
          true.

(** ** Vocabulary of the further properties *)

(** What the analyser reports for one cast on a schema, if anything: the
    name finds no column, finds several, or finds one whose type the cast
    does not accept. *)
Definition rule_error (s : StructType) (rule : string * DataType) : option AnalysisError :=
  match candidates s (fst rule) with
  | [] => Some (UNRESOLVED_COLUMN (fst rule))
  | [f] =>
      if canCast (dataType f) (snd rule) then None
      else Some (DATATYPE_MISMATCH (dataType f) (snd rule))
  | _ :: _ :: _ => Some (AMBIGUOUS_REFERENCE (fst rule))
  end.

(** The report of the first cast, in order, that has one. *)
Fixpoint first_rule_error (s : StructType) (rules : list (string * DataType))
  : option AnalysisError :=
  match rules with
  | [] => None
  | rule :: rules' =>
      match rule_error s rule with
      | Some e => Some e
      | None => first_rule_error s rules'
      end
  end.



(** File [f] is read and standardised to table [t]. *)
Definition standardized_from (w : World) (f : string) (t : DataFrame) : Prop :=
  exists df, spark_read_parquet w f = Ok df /\ standardize_schema df = Ok t.

(** From a state that satisfies [I], the computation ends in a state that
    satisfies [I], and a value it returns satisfies [Q]. *)
Definition triple {A : Type} (I : State -> Prop) (m : M A) (Q : A -> Prop) : Prop :=
  forall st st' r, I st -> m st = (st', r) ->
                   I st' /\ (forall a, r = Ok a -> Q a).

(** From a state that satisfies [I], the computation, when it raises,
    ends in a state that satisfies [I]. *)
Definition on_error {A : Type} (I : State -> Prop) (m : M A) : Prop :=
  forall st st' e, I st -> m st = (st', Raise e) -> I st'.

(** Every file read so far satisfies [P]. *)
Definition reads_only (P : string -> Prop) (st : State) : Prop :=
  forall p, In (ReadParquet p) (trace st) -> P p.

(** Nothing has been written: the destination holds [previous]. *)
Definition nothing_written (previous : option DataFrame) (st : State) : Prop :=
  destination st = previous /\ forall p df, ~ In (WriteParquet p df) (trace st).

(** A landing directory with the two kinds of file and a text file, and a
    world without a landing directory. *)
Definition world_with_two_files : World :=
  mkWorld (Some [("yellow_2022_12.parquet", ParquetFile yellow_2022_12);
                 ("notes.txt", OtherFile);
                 ("yellow_2023_04.parquet", ParquetFile yellow_2023_04)])
          true.

Definition world_without_landing : World := mkWorld None true.



Definition small_abc : DataFrame :=
  mkDF small_schema
       [[IntV 2; dbl 3; dbl 0]; [IntV 1; dbl 5; dbl 1]; [IntV 1; dbl 7; Null];
        [IntV 2; dbl 3; dbl 0]; [IntV 2; dbl 9; dbl 1]].


(** The state after an event that changes neither the session nor the
    destination. *)
Definition push (e : event) (st : State) : State :=
  mkState (session_active st) (destination st) (e :: trace st).

(** The property [I] of states survives the event [e]. *)
Definition admits (I : State -> Prop) (e : event) : Prop :=
  forall st, I st -> I (push e st).

(** The paths that the notebook may read: a name of the landing directory
    that ends in [.parquet], joined to [data_path]. *)
Definition parquet_path (w : World) (p : string) : Prop :=
  exists entries f, landing w = Some entries /\ In f (map fst entries) /\
                    endswith f ".parquet" = true /\ p = os_path_join data_path f.


(** A table whose columns are spelt in other capitalisations, and what
    [standardize_schema] makes of it. *)
Definition other_capitals : DataFrame :=
  mkDF [mkField "vendorid" LongType; mkField "PASSENGER_COUNT" LongType;
        mkField "RatecodeID" DoubleType; mkField "pulocationid" IntegerType;
        mkField "DOLocationID" LongType; mkField "tip_amount" DoubleType;
        mkField "AIRPORT_FEE" DoubleType]
       [[LongV 2; LongV 1; dbl 1; IntV 5; LongV 4294967303; dbl 3; dbl 0]].

Definition other_capitals_standardized : DataFrame :=
  mkDF [mkField "VendorID" IntegerType; mkField "passenger_count" DoubleType;
        mkField "RatecodeID" DoubleType; mkField "PULocationID" IntegerType;
        mkField "DOLocationID" IntegerType; mkField "tip_amount" DoubleType;
        mkField "airport_fee" DoubleType]
       [[IntV 2; dbl 1; dbl 1; IntV 5; IntV 7; dbl 3; dbl 0]].


(** ** Proof automation *)

Arguments key : simpl never.
Arguments resolver : simpl never.

(** [resolve_names] evaluates the resolver on every pair of literal names
    of the goal. *)
Ltac resolve_names :=
  repeat match goal with
    | |- context [resolver (String ?a ?s) (String ?b ?s')] =>
        let v := eval vm_compute in (resolver (String a s) (String b s')) in
        change (resolver (String a s) (String b s')) with v
    end.

(** [invert_bind H as d E] splits a successful [x <- m ;; k] into its two
    steps: [E : m = Ok d] and [H] about [k d]. *)
Tactic Notation "invert_bind" hyp(H) "as" ident(d) ident(E) :=
  match type of H with
  | bind ?m _ = Ok _ => destruct m as [ d | ] eqn:E; simpl in H; [ | discriminate H ]
  end.

(** [rule_cases H] splits [H : In (c, t) cast_rules] into the five rules. *)
Ltac rule_cases H :=
  unfold cast_rules in H; simpl in H;
  repeat (destruct H as [ H | H ]; [ injection H as <- <- | ]); [ .. | contradiction H ].


(** * Proofs *)

(** ** The resolver *)

Lemma resolver_key (a b : string) : resolver a b = true <-> key a = key b.
Proof. unfold resolver. apply String.eqb_eq. Qed.

Lemma resolver_refl (a : string) : resolver a a = true.
Proof. apply resolver_key. reflexivity. Qed.

Lemma resolver_sym (a b : string) : resolver a b = resolver b a.
Proof. unfold resolver. apply String.eqb_sym. Qed.

Lemma resolver_same_l (a b c : string) :
  resolver a b = true -> resolver a c = resolver b c.
Proof.
  intros H. apply resolver_key in H. unfold resolver. now rewrite H.
Qed.

Lemma resolver_same_r (a b c : string) :
  resolver b c = true -> resolver a b = resolver a c.
Proof.
  intros H. apply resolver_key in H. unfold resolver. now rewrite H.
Qed.

Lemma resolver_eq (a : string) (b : string) : a = b -> resolver a b = true.
Proof. intros ->. apply resolver_refl. Qed.

Lemma resolver_false_neq (a b : string) : resolver a b = false -> a <> b.
Proof.
  intros H E. rewrite (resolver_eq _ _ E) in H. discriminate.
Qed.

(** ** Lists *)

Lemma filter_nil_iff {A : Type} (p : A -> bool) (l : list A) :
  filter p l = [] <-> forall x, In x l -> p x = false.
Proof.
  induction l as [ | a l IH ]; simpl.
  - split; [ intros _ x [] | reflexivity ].
  - destruct (p a) eqn:E.
    + split; [ discriminate | ].
      intros H. specialize (H a (or_introl eq_refl)). congruence.
    + rewrite IH. split.
      * intros H x [ <- | Hx ]; auto.
      * intros H x Hx. apply H. now right.
Qed.

Lemma existsb_filter {A : Type} (p : A -> bool) (l : list A) :
  existsb p l = negb (match filter p l with [] => true | _ => false end).
Proof.
  induction l as [ | a l IH ]; simpl; [ reflexivity | ].
  destruct (p a); simpl; [ reflexivity | exact IH ].
Qed.


Lemma map_id_on {A : Type} (g : A -> A) (l : list A) :
  (forall x, In x l -> g x = x) -> map g l = l.
Proof.
  induction l as [ | a l IH ]; simpl; intros H; [ reflexivity | ].
  rewrite H by now left. rewrite IH; [ reflexivity | ].
  intros x Hx. apply H. now right.
Qed.

(** ** Distinct column names *)

Lemma candidates_distinct (s : StructType) (f : StructField) (c : string) :
  distinct_columns s -> In f s -> resolver (name f) c = true ->
  candidates s c = [f].
Proof.
  unfold distinct_columns, candidates.
  induction s as [ | g s IH ]; simpl; intros Hnd Hin Hres; [ contradiction | ].
  inversion Hnd as [ | k ks Hnotin Hnd' ]; subst.
  destruct Hin as [ -> | Hin ].
  - rewrite Hres. f_equal. apply filter_nil_iff. intros h Hh.
    destruct (resolver (name h) c) eqn:E; [ exfalso | reflexivity ].
    apply Hnotin. apply resolver_key in Hres, E.
    rewrite Hres, <- E. apply in_map. now apply in_map.
  - destruct (resolver (name g) c) eqn:E.
    + exfalso. apply Hnotin. apply resolver_key in Hres, E.
      rewrite E, <- Hres. apply in_map. now apply in_map.
    + now apply IH.
Qed.

Lemma candidates_at_most_one (s : StructType) (c : string) :
  distinct_columns s ->
  candidates s c = [] \/ exists f, In f s /\ candidates s c = [f].
Proof.
  intros Hnd. destruct (candidates s c) as [ | f l ] eqn:E; [ now left | right ].
  assert (Hf : In f (candidates s c)) by (rewrite E; now left).
  apply filter_In in Hf. destruct Hf as [Hin Hres].
  exists f. split; [ exact Hin | ].
  rewrite <- E. now apply candidates_distinct.
Qed.

Lemma candidates_one_forces (s : StructType) (c : string) (f g : StructField) :
  candidates s c = [f] -> In g s -> resolver (name g) c = true -> g = f.
Proof.
  intros E Hin Hres.
  assert (H : In g (candidates s c)) by (apply filter_In; now split).
  rewrite E in H. destruct H as [ H | [] ]. now symmetry.
Qed.

Lemma duplicated_distinct (s : StructType) :
  distinct_columns s -> duplicated (map name s) = None.
Proof.
  unfold distinct_columns. generalize (map name s) as l. clear s.
  induction l as [ | x l IH ]; simpl; intros Hnd; [ reflexivity | ].
  inversion Hnd as [ | k ks Hnotin Hnd' ]; subst.
  destruct (existsb (resolver x) l) eqn:E.
  - exfalso. apply existsb_exists in E. destruct E as [y [Hy Hres]].
    apply Hnotin. apply resolver_key in Hres. rewrite Hres. now apply in_map.
  - now apply IH.
Qed.

Lemma distinct_duplicated (s : StructType) :
  duplicated (map name s) = None -> distinct_columns s.
Proof.
  unfold distinct_columns. generalize (map name s) as l. clear s.
  induction l as [ | x l IH ]; simpl; intros H; [ constructor | ].
  destruct (existsb (resolver x) l) eqn:E; [ discriminate | ].
  constructor; [ | now apply IH ].
  intros Hin. apply in_map_iff in Hin. destruct Hin as [y [Hk Hy]].
  assert (Ht : existsb (resolver x) l = true).
  { apply existsb_exists. exists y. split; [ exact Hy | ].
    apply resolver_key. now symmetry. }
  congruence.
Qed.

(** ** Cells *)

Lemma DataType_eqb_refl (t : DataType) : DataType_eqb t t = true.
Proof. now destruct t. Qed.

Lemma cast_value_same (t : DataType) (v : value) : cast_value t t v = v.
Proof. unfold cast_value. now rewrite DataType_eqb_refl. Qed.


Lemma canCast_numeric (t0 t : DataType) :
  isNumeric t0 = true -> isNumeric t = true -> canCast t0 t = true.
Proof. destruct t0, t; simpl; congruence. Qed.

Lemma get_same_name (s : StructType) (r : Row) (c c' : string) :
  resolver c c' = true -> get s r c = get s r c'.
Proof.
  intros H. revert r. induction s as [ | f s IH ]; intros [ | x r ]; simpl; try reflexivity.
  rewrite (resolver_same_r (name f) c c' H). now rewrite IH.
Qed.

Lemma get_unresolved (s : StructType) (r : Row) (c : string) :
  candidates s c = [] -> get s r c = Null.
Proof.
  unfold candidates. revert r.
  induction s as [ | f s IH ]; intros [ | x r ]; simpl; try reflexivity.
  destruct (resolver (name f) c); [ discriminate | apply IH ].
Qed.

Lemma replace_where_length (p : StructField -> bool) (v : value) (s : StructType) (r : Row) :
  List.length (replace_where p v s r) = List.length r.
Proof.
  revert r. induction s as [ | f s IH ]; intros [ | x r ]; simpl; try reflexivity.
  now rewrite IH.
Qed.


Lemma replace_where_frame (p : StructField -> bool) (v : value) (s : StructType) (r : Row)
  (j : nat) (f : StructField) :
  nth_error s j = Some f -> p f = false ->
  nth_error (replace_where p v s r) j = nth_error r j.
Proof.
  revert r j. induction s as [ | g s IH ]; intros r j.
  - destruct j; discriminate.
  - destruct r as [ | x r ]; simpl; [ reflexivity | ].
    destruct j as [ | j ]; simpl.
    + intros [= ->] ->. reflexivity.
    + apply IH.
Qed.


(** ** One cast: [df.withColumn(c, col(c).cast(t))] *)

Lemma withColumn_cast_eq (c : string) (t : DataType) (df : DataFrame) :
  withColumn c (cast (col c) t) df =
  match candidates (schema df) c with
  | [] => Raise (AnalysisException (UNRESOLVED_COLUMN c))
  | [f] =>
      if canCast (dataType f) t
      then Ok (mkDF (map (cast_field c t) (schema df)) (cast_rows c (dataType f) t df))
      else Raise (AnalysisException (DATATYPE_MISMATCH (dataType f) t))
  | _ :: _ :: _ => Raise (AnalysisException (AMBIGUOUS_REFERENCE c))
  end.
Proof.
  unfold withColumn. simpl analyze.
  rewrite existsb_filter. fold (candidates (schema df) c).
  destruct (candidates (schema df) c) as [ | f [ | g l ] ]; simpl; try reflexivity.
  destruct (canCast (dataType f) t); reflexivity.
Qed.

Lemma withColumn_cast_inv (c : string) (t : DataType) (df df' : DataFrame) :
  withColumn c (cast (col c) t) df = Ok df' ->
  exists f, candidates (schema df) c = [f] /\ canCast (dataType f) t = true /\
            df' = mkDF (map (cast_field c t) (schema df)) (cast_rows c (dataType f) t df).
Proof.
  rewrite withColumn_cast_eq.
  destruct (candidates (schema df) c) as [ | f [ | g l ] ]; try discriminate.
  destruct (canCast (dataType f) t) eqn:E; [ | discriminate ].
  intros [= <-]. now exists f.
Qed.

Lemma cast_field_key (c : string) (t : DataType) (f : StructField) :
  key (name (cast_field c t f)) = key (name f).
Proof.
  unfold cast_field. destruct (resolver (name f) c) eqn:E; [ | reflexivity ].
  simpl. symmetry. now apply resolver_key.
Qed.

Lemma cast_field_resolver (c : string) (t : DataType) (f : StructField) (c' : string) :
  resolver (name (cast_field c t f)) c' = resolver (name f) c'.
Proof. unfold resolver. now rewrite cast_field_key. Qed.

Lemma cast_field_apart (c : string) (t : DataType) (f : StructField) :
  resolver (name f) c = false -> cast_field c t f = f.
Proof. unfold cast_field. now intros ->. Qed.

Lemma cast_schema_keys (c : string) (t : DataType) (s : StructType) :
  map key (map name (map (cast_field c t) s)) = map key (map name s).
Proof.
  rewrite !map_map. apply map_ext. intros f. apply cast_field_key.
Qed.

Lemma cast_schema_distinct (c : string) (t : DataType) (s : StructType) :
  distinct_columns s -> distinct_columns (map (cast_field c t) s).
Proof. unfold distinct_columns. now rewrite cast_schema_keys. Qed.


Lemma candidates_cast_apart (c : string) (t : DataType) (s : StructType) (c' : string) :
  resolver c c' = false ->
  candidates (map (cast_field c t) s) c' = candidates s c'.
Proof.
  intros Hap. unfold candidates. induction s as [ | f s IH ]; simpl; [ reflexivity | ].
  rewrite cast_field_resolver.
  destruct (resolver (name f) c') eqn:E; rewrite IH; [ | reflexivity ].
  rewrite cast_field_apart; [ reflexivity | ].
  destruct (resolver (name f) c) eqn:E'; [ | reflexivity ].
  rewrite (resolver_same_l _ _ _ E') in E. congruence.
Qed.


(** ** A chain of casts *)

Lemma rules_apart_head (c : string) (t : DataType) (rules : list (string * DataType))
  (c' : string) (t' : DataType) :
  rules_apart ((c, t) :: rules) -> In (c', t') rules -> resolver c c' = false.
Proof.
  unfold rules_apart. simpl. intros Hnd Hin.
  inversion Hnd as [ | k ks Hnotin _ ]; subst.
  destruct (resolver c c') eqn:E; [ exfalso | reflexivity ].
  apply Hnotin. apply resolver_key in E. rewrite E.
  apply in_map. now apply (in_map fst _ (c', t')).
Qed.

Lemma rules_apart_tail (r : string * DataType) (rules : list (string * DataType)) :
  rules_apart (r :: rules) -> rules_apart rules.
Proof. unfold rules_apart. simpl. now inversion 1. Qed.

Lemma cast_rules_apart : rules_apart cast_rules.
Proof.
  unfold rules_apart. vm_compute.
  repeat (constructor; [ simpl; intuition discriminate | ]). constructor.
Qed.

Lemma cast_all_schema (rules : list (string * DataType)) (df df' : DataFrame) :
  cast_all rules df = Ok df' ->
  schema df' = map (field_after rules) (schema df).
Proof.
  revert df. induction rules as [ | [c t] rules IH ]; simpl; intros df H.
  - injection H as <-. unfold field_after. simpl. now rewrite map_id.
  - invert_bind H as d E. apply withColumn_cast_inv in E.
    destruct E as [f [_ [_ ->]]]. rewrite (IH _ H). simpl.
    rewrite map_map. reflexivity.
Qed.


Lemma field_after_apart (rules : list (string * DataType)) (f : StructField) :
  (forall c t, In (c, t) rules -> resolver (name f) c = false) ->
  field_after rules f = f.
Proof.
  unfold field_after. induction rules as [ | [c t] rules IH ]; simpl; intros H;
    [ reflexivity | ].
  rewrite cast_field_apart by (apply (H c t); now left).
  apply IH. intros c' t' Hin. apply (H c' t'). now right.
Qed.

Lemma field_after_key (rules : list (string * DataType)) (f : StructField) :
  key (name (field_after rules f)) = key (name f).
Proof.
  unfold field_after. revert f.
  induction rules as [ | [c t] rules IH ]; simpl; intros f; [ reflexivity | ].
  rewrite IH. apply cast_field_key.
Qed.

(** A column that no rule names keeps its place and its cells. *)
Lemma cast_all_frame (rules : list (string * DataType)) (df df' : DataFrame)
  (j : nat) (f : StructField) :
  cast_all rules df = Ok df' ->
  nth_error (schema df) j = Some f ->
  (forall c t, In (c, t) rules -> resolver (name f) c = false) ->
  nth_error (schema df') j = Some f /\ column_at j df' = column_at j df.
Proof.
  revert df. induction rules as [ | [c t] rules IH ]; simpl; intros df H Hj Hap.
  - injection H as <-. now split.
  - invert_bind H as d E. apply withColumn_cast_inv in E.
    destruct E as [g [_ [_ ->]]].
    assert (Hc : resolver (name f) c = false) by (apply (Hap c t); now left).
    destruct (IH _ H) as [Hs Hr].
    + simpl. rewrite nth_error_map, Hj. simpl. now rewrite cast_field_apart.
    + intros c' t' Hin. apply (Hap c' t'). now right.
    + split; [ exact Hs | ]. rewrite Hr.
      unfold column_at, cast_rows. simpl. rewrite map_map.
      apply map_ext. intros r. now apply replace_where_frame with (f := f).
Qed.




(** The chain succeeds when every rule finds a column, and otherwise fails
    on the first rule that finds none. *)
Lemma cast_all_outcome (rules : list (string * DataType)) (df : DataFrame) :
  rules_apart rules -> distinct_columns (schema df) ->
  (forall f c t, In f (schema df) -> In (c, t) rules ->
                 resolver (name f) c = true -> canCast (dataType f) t = true) ->
  (exists df', cast_all rules df = Ok df' /\
               forall c t, In (c, t) rules -> candidates (schema df) c <> [])
  \/
  (exists c t, In (c, t) rules /\ candidates (schema df) c = [] /\
               cast_all rules df = Raise (AnalysisException (UNRESOLVED_COLUMN c))).
Proof.
  revert df. induction rules as [ | [c t] rules IH ]; intros df Hap Hnd Hcast.
  - left. exists df. split; [ reflexivity | intros c t [] ].
  - simpl. rewrite withColumn_cast_eq.
    destruct (candidates_at_most_one (schema df) c Hnd) as [ E | [f [Hf E]] ]; rewrite E.
    + right. exists c, t. split; [ now left | now split ].
    + assert (Hres : resolver (name f) c = true).
      { assert (H : In f (candidates (schema df) c)) by (rewrite E; now left).
        now apply filter_In in H. }
      rewrite (Hcast f c t Hf (or_introl eq_refl) Hres). simpl.
      set (d := mkDF _ _).
      assert (Hkeep : forall c' t', In (c', t') rules ->
                candidates (schema d) c' = candidates (schema df) c').
      { intros c' t' Hin. apply candidates_cast_apart.
        now apply (rules_apart_head c t rules c' t'). }
      destruct (IH d) as [ [df' [Hok Hall]] | [c' [t' [Hin [Habs Hfail]]]] ].
      * now apply rules_apart_tail in Hap.
      * now apply cast_schema_distinct.
      * intros g c' t' Hg Hin Hres'. simpl in Hg. apply in_map_iff in Hg.
        destruct Hg as [g0 [<- Hg0]]. rewrite cast_field_resolver in Hres'.
        rewrite cast_field_apart; [ apply (Hcast g0 c' t'); auto; now right | ].
        destruct (resolver (name g0) c) eqn:E0; [ | reflexivity ].
        rewrite (resolver_same_l _ _ _ E0) in Hres'.
        rewrite (rules_apart_head c t rules c' t' Hap Hin) in Hres'. discriminate.
      * left. exists df'. split; [ exact Hok | ].
        intros c' t' [ [= <- <-] | Hin ]; [ rewrite E; discriminate | ].
        rewrite <- (Hkeep c' t' Hin). now apply (Hall c' t').
      * right. exists c', t'. split; [ now right | ]. split; [ | exact Hfail ].
        now rewrite <- (Hkeep c' t' Hin).
Qed.

(** ** The renaming *)

Lemma withColumnRenamed_schema (a b : string) (df : DataFrame) :
  schema (withColumnRenamed a b df) = map (rename_field a b) (schema df).
Proof.
  unfold withColumnRenamed.
  destruct (existsb (fun f => resolver (name f) a) (schema df)) eqn:E; [ reflexivity | ].
  symmetry. apply map_id_on. intros f Hf. unfold rename_field.
  destruct (resolver (name f) a) eqn:Hres; [ | reflexivity ].
  assert (Ht : existsb (fun f => resolver (name f) a) (schema df) = true)
    by (apply existsb_exists; now exists f).
  congruence.
Qed.

Lemma withColumnRenamed_rows (a b : string) (df : DataFrame) :
  rows (withColumnRenamed a b df) = rows df.
Proof.
  unfold withColumnRenamed.
  now destruct (existsb (fun f => resolver (name f) a) (schema df)).
Qed.





(** ** [standardize_schema] as a chain of casts and a renaming *)

Lemma standardize_schema_eq (df : DataFrame) :
  standardize_schema df =
  (d <- cast_all cast_rules df ;; Ok (withColumnRenamed "Airport_fee" "airport_fee" d)).
Proof.
  unfold standardize_schema, cast_rules, cast_all.
  repeat match goal with
         | |- context [bind (withColumn ?c ?e ?d) _] =>
             destruct (withColumn c e d); simpl; try reflexivity
         end.
Qed.

Lemma standardized_field_eq (f : StructField) :
  rename_field "Airport_fee" "airport_fee" (field_after cast_rules f) = standardized_field f.
Proof.
  unfold standardized_field, field_after, cast_rules, rename_field, cast_field, fold_left,
    fst, snd.
  repeat match goal with
         | |- context [resolver (name f) ?c] =>
             let E := fresh "E" in
             destruct (resolver (name f) c) eqn:E; cbn [name dataType]; resolve_names;
             cbv iota
         end; reflexivity.
Qed.

Lemma standardize_schema_schema (df df' : DataFrame) :
  standardize_schema df = Ok df' ->
  schema df' = map standardized_field (schema df).
Proof.
  rewrite standardize_schema_eq. intros H. invert_bind H as d E. injection H as <-.
  rewrite withColumnRenamed_schema, (cast_all_schema _ _ _ E), map_map.
  apply map_ext. intros f. apply standardized_field_eq.
Qed.

Lemma standardize_schema_inv (df df' : DataFrame) :
  standardize_schema df = Ok df' ->
  exists d, cast_all cast_rules df = Ok d /\
            df' = withColumnRenamed "Airport_fee" "airport_fee" d.
Proof.
  rewrite standardize_schema_eq. intros H. invert_bind H as d E. injection H as <-.
  now exists d.
Qed.

Lemma cast_rules_numeric (c : string) (t : DataType) :
  In (c, t) cast_rules -> isNumeric t = true.
Proof. intros H. rule_cases H; reflexivity. Qed.

Lemma cast_rules_not_airport (c : string) (t : DataType) :
  In (c, t) cast_rules ->
  resolver "Airport_fee" c = false /\ resolver "airport_fee" c = false.
Proof. intros H. rule_cases H; split; reflexivity. Qed.

Lemma expected_castable (df : DataFrame) : expected_columns df -> castable_columns df.
Proof.
  intros [Hnd H]. split; [ exact Hnd | ].
  intros c t Hin. destruct (H c t Hin) as [f [Hf [Hn Hnum]]].
  exists f. repeat split; auto.
  apply canCast_numeric; [ exact Hnum | now apply (cast_rules_numeric c) ].
Qed.

Lemma castable_columns_present (df : DataFrame) :
  castable_columns df -> castable_where_present df /\ ~ required_absent df.
Proof.
  intros [Hnd H]. split.
  - intros g c t Hg Hin Hres. destruct (H c t Hin) as [f [Hf [Hn Hc]]].
    assert (E : candidates (schema df) c = [f]).
    { apply candidates_distinct; auto. subst c. apply resolver_refl. }
    now rewrite (candidates_one_forces _ _ _ _ E Hg Hres).
  - intros [c [t [Hin Habs]]]. destruct (H c t Hin) as [f [Hf [Hn _]]].
    apply (proj1 (filter_nil_iff _ _)) with (x := f) in Habs; [ | exact Hf ].
    subst c. now rewrite resolver_refl in Habs.
Qed.

(** The outcome of [standardize_schema] on a table with distinct column
    names whose columns, where a cast finds one, can be cast. *)
Lemma standardize_schema_outcome (df : DataFrame) :
  distinct_columns (schema df) -> castable_where_present df ->
  (exists df', standardize_schema df = Ok df' /\ ~ required_absent df)
  \/
  (exists c t, In (c, t) cast_rules /\ candidates (schema df) c = [] /\
               standardize_schema df = Raise (AnalysisException (UNRESOLVED_COLUMN c))).
Proof.
  intros Hnd Hcast. rewrite standardize_schema_eq.
  destruct (cast_all_outcome cast_rules df cast_rules_apart Hnd Hcast)
    as [ [d [Hok Hall]] | [c [t [Hin [Habs Hfail]]]] ].
  - left. rewrite Hok. simpl. eexists. split; [ reflexivity | ].
    intros [c [t [Hin Habs]]]. now apply (Hall c t Hin).
  - right. exists c, t. rewrite Hfail. now repeat split.
Qed.

Lemma standardize_schema_succeeds (df : DataFrame) :
  castable_columns df -> exists df', standardize_schema df = Ok df'.
Proof.
  intros H. destruct (castable_columns_present df H) as [Hcast Hpres].
  destruct (standardize_schema_outcome df (proj1 H) Hcast)
    as [ [df' [Hok _]] | [c [t [Hin [Habs _]]]] ].
  - now exists df'.
  - exfalso. apply Hpres. now exists c, t.
Qed.








Lemma standardized_field_same (f : StructField) :
  resolver (name (standardized_field f)) (name f) = true.
Proof.
  unfold standardized_field.
  repeat match goal with
         | |- context [if resolver (name f) ?c then _ else _] =>
             let E := fresh "E" in
             destruct (resolver (name f) c) eqn:E;
             [ cbn [name]; rewrite resolver_sym;
               first [ exact E
                     | rewrite (resolver_same_l _ _ _ E); reflexivity ] | ]
         end.
  apply resolver_refl.
Qed.



Lemma has_column_find (df : DataFrame) (c : string) (ok : DataType -> bool)
  (f : StructField) :
  find (fun g => String.eqb (name g) c && ok (dataType g)) (schema df) = Some f ->
  has_column df c ok.
Proof.
  intros H. apply find_some in H. destruct H as [Hin H].
  apply andb_true_iff in H. destruct H as [Hn Hok].
  exists f. repeat split; auto. now apply String.eqb_eq.
Qed.

(** ** The claims about [standardize_schema] *)




(** C7, as amended.  On a table with distinct column names in which the
    columns that the casts find have a type that the cast accepts,
    [standardize_schema] raises if and only if one of the five cast columns
    is absent, and what it raises is the unresolved-column error for an
    absent cast column; no other column, [Airport_fee] included, is looked
    for. *)
Theorem standardize_schema_raises_iff (T : DataFrame) :
  distinct_columns (schema T) -> castable_where_present T ->
  (isOk (standardize_schema T) = false <-> required_absent T) /\
  (forall e, standardize_schema T = Raise e ->
     exists c t, In (c, t) cast_rules /\ candidates (schema T) c = [] /\
                 e = AnalysisException (UNRESOLVED_COLUMN c)).
Proof.
  intros Hnd Hcast.
  destruct (standardize_schema_outcome T Hnd Hcast)
    as [ [N [Hok Hpres]] | [c [t [Hin [Habs Hfail]]]] ].
  - rewrite Hok. simpl. split.
    + split; [ discriminate | intros H; now destruct (Hpres H) ].
    + discriminate.
  - rewrite Hfail. simpl. split.
    + split; [ intros _; now exists c, t | reflexivity ].
    + intros e [= <-]. now exists c, t.
Qed.


(** ** [unionByName] on tables with the same columns *)

Lemma find_distinct (rs : StructType) (f : StructField) :
  distinct_columns rs -> In f rs ->
  find (fun rf => resolver (name f) (name rf)) rs = Some f.
Proof.
  unfold distinct_columns.
  induction rs as [ | g rs IH ]; simpl; intros Hnd Hin; [ contradiction | ].
  inversion Hnd as [ | k ks Hnotin Hnd' ]; subst.
  destruct Hin as [ -> | Hin ]; [ now rewrite resolver_refl | ].
  destruct (resolver (name f) (name g)) eqn:E; [ exfalso | now apply IH ].
  apply Hnotin. apply resolver_key in E. rewrite <- E.
  apply in_map. now apply in_map.
Qed.

Lemma compareAndAddFields_incl (ls rs : StructType) :
  distinct_columns rs -> incl ls rs ->
  compareAndAddFields ls rs = Ok (map (fun f => (f, f)) ls).
Proof.
  intros Hnd. induction ls as [ | f ls IH ]; simpl; intros Hincl; [ reflexivity | ].
  rewrite find_distinct by (auto; apply Hincl; now left).
  rewrite IH by (intros x Hx; apply Hincl; now right). reflexivity.
Qed.

Lemma findWiderTypeForTwo_same (t : DataType) : findWiderTypeForTwo t t = Some t.
Proof. now destruct t. Qed.

Lemma widenSetOperationTypes_same (ls : StructType) :
  widenSetOperationTypes (map (fun f => (f, f)) ls)
  = Ok (map (fun f => mkAligned f f (dataType f)) ls).
Proof.
  induction ls as [ | f ls IH ]; simpl; [ reflexivity | ].
  now rewrite findWiderTypeForTwo_same, IH.
Qed.

Lemma widen_row_same (ls : StructType) (r : Row) :
  widen_row (map (fun f => mkAligned f f (dataType f)) ls) r = r.
Proof.
  revert r. induction ls as [ | f ls IH ]; intros [ | x r ]; simpl; try reflexivity.
  now rewrite cast_value_same, IH.
Qed.

(** The union of two tables with the same fields, in any order, has the
    fields of the left table, in its order, and the rows of both. *)
Lemma unionByName_uniform (l r : DataFrame) :
  distinct_columns (schema l) -> Permutation (schema l) (schema r) ->
  unionByName l r
  = Ok (mkDF (schema l) (rows l ++ map (reorder (schema l) (schema r)) (rows r))).
Proof.
  intros Hnd Hperm.
  assert (Hnd' : distinct_columns (schema r)).
  { unfold distinct_columns in *. eapply Permutation_NoDup; [ | exact Hnd ].
    now do 2 apply Permutation_map. }
  unfold unionByName, checkColumnNameDuplication.
  rewrite (duplicated_distinct _ Hnd), (duplicated_distinct _ Hnd'). simpl.
  rewrite compareAndAddFields_incl
    by (auto; intros x Hx; now apply (Permutation_in _ Hperm)).
  simpl. rewrite (Permutation_length Hperm), Nat.eqb_refl. simpl.
  rewrite widenSetOperationTypes_same. simpl. f_equal. f_equal.
  - rewrite map_map. simpl. apply map_id_on. now intros [n t] _.
  - f_equal.
    + apply map_id_on. intros row _. apply widen_row_same.
    + apply map_ext. intros row. unfold project_row, reorder.
      rewrite map_map. simpl. apply map_ext. intros f. apply cast_value_same.
Qed.

Lemma get_map (ls : StructType) (g : StructField -> value) (c : string) :
  get ls (map g ls) c
  = match find (fun lf => resolver (name lf) c) ls with
    | Some lf => g lf
    | None => Null
    end.
Proof.
  induction ls as [ | f ls IH ]; simpl; [ reflexivity | ].
  now destruct (resolver (name f) c).
Qed.

(** Reordering a row by name does not change what a name finds in it. *)
Lemma get_reorder (ls rs : StructType) (row : Row) (c : string) :
  incl rs ls ->
  get ls (reorder ls rs row) c = get rs row c.
Proof.
  intros Hincl. unfold reorder. rewrite get_map.
  destruct (find (fun lf => resolver (name lf) c) ls) as [ lf | ] eqn:E.
  - apply find_some in E. destruct E as [_ E]. now apply get_same_name.
  - symmetry. apply get_unresolved. apply filter_nil_iff. intros f Hf.
    apply (find_none _ _ E). now apply Hincl.
Qed.

Lemma select_app (cs : list string) (s : StructType) (r1 r2 : list Row) :
  select cs (mkDF s (r1 ++ r2)) = select cs (mkDF s r1) ++ select cs (mkDF s r2).
Proof. unfold select. simpl. apply map_app. Qed.

Lemma select_unionByName (l r u : DataFrame) (cs : list string) :
  distinct_columns (schema l) -> Permutation (schema l) (schema r) ->
  unionByName l r = Ok u ->
  schema u = schema l /\
  count u = (count l + count r)%nat /\
  select cs u = select cs l ++ select cs r.
Proof.
  intros Hnd Hperm. rewrite (unionByName_uniform l r Hnd Hperm). intros [= <-].
  split; [ reflexivity | ]. split.
  - unfold count. simpl. now rewrite length_app, length_map.
  - rewrite select_app. f_equal.
    unfold select. simpl. rewrite map_map. apply map_ext. intros row.
    apply map_ext. intros c. apply get_reorder.
    intros x Hx. apply Permutation_sym in Hperm. now apply (Permutation_in _ Hperm).
Qed.

(** ** The accumulation loop on tables with the same columns *)

Lemma accumulate_uniform (tables : list DataFrame) (acc : DataFrame) :
  distinct_columns (schema acc) ->
  Forall (fun t => Permutation (schema acc) (schema t)) tables ->
  exists u, accumulate (Some acc) tables = Ok (Some u) /\
            schema u = schema acc /\
            count u = (count acc + list_sum (map count tables))%nat /\
            forall cs, select cs u = select cs acc ++ flat_map (select cs) tables.
Proof.
  revert acc. induction tables as [ | t tables IH ]; intros acc Hnd Hall.
  - exists acc. simpl. repeat split; auto. intros cs. now rewrite app_nil_r.
  - inversion Hall as [ | x xs Hperm Hall' ]; subst. simpl.
    rewrite (unionByName_uniform acc t Hnd Hperm). simpl.
    set (u1 := mkDF _ _).
    assert (H1 : unionByName acc t = Ok u1) by now apply unionByName_uniform.
    destruct (IH u1) as [u [Hu [Hs [Hc Hsel]]]]; [ exact Hnd | exact Hall' | ].
    exists u. split; [ exact Hu | ]. split; [ exact Hs | ]. split.
    + rewrite Hc.
      destruct (select_unionByName acc t u1 [] Hnd Hperm H1) as [_ [-> _]]. lia.
    + intros cs. rewrite Hsel.
      destruct (select_unionByName acc t u1 cs Hnd Hperm H1) as [_ [_ ->]].
      now rewrite <- app_assoc.
Qed.

Lemma uniform_cons (s : StructType) (t : DataFrame) (tables : list DataFrame) :
  uniform s (t :: tables) ->
  distinct_columns (schema t) /\
  Forall (fun u => Permutation (schema t) (schema u)) tables.
Proof.
  intros [Hnd Hall]. inversion Hall as [ | x xs Hperm Hall' ]; subst. split.
  - unfold distinct_columns in *. eapply Permutation_NoDup; [ | exact Hnd ].
    now do 2 apply Permutation_map.
  - eapply Forall_impl; [ | exact Hall' ]. intros u Hu. simpl in Hu.
    eapply Permutation_trans; [ apply Permutation_sym; exact Hperm | exact Hu ].
Qed.

Lemma merge_uniform (s : StructType) (t : DataFrame) (tables : list DataFrame) :
  uniform s (t :: tables) ->
  exists u, merge (t :: tables) = Ok (Some u) /\
            schema u = schema t /\
            count u = list_sum (map count (t :: tables)) /\
            forall cs, select cs u = flat_map (select cs) (t :: tables).
Proof.
  intros H. apply uniform_cons in H. destruct H as [Hnd Hall].
  unfold merge. simpl. now apply accumulate_uniform.
Qed.

(** ** The claims about the merge *)

(** C4. For every non-empty sequence of tables with the same fields, the
    loop returns a table whose row count is the sum of the row counts of the
    tables, and whose rows, read by column name, are the rows of the first
    table, then those of the second, and so on: each row of each table, as
    often as it occurs. *)
Theorem merge_row_count (s : StructType) (t : DataFrame) (tables : list DataFrame) :
  uniform s (t :: tables) ->
  exists u, merge (t :: tables) = Ok (Some u) /\
            count u = list_sum (map count (t :: tables)) /\
            forall cs, select cs u = flat_map (select cs) (t :: tables).
Proof.
  intros H. destruct (merge_uniform s t tables H) as [u [Hu [_ [Hc Hsel]]]].
  now exists u.
Qed.

(** C5. For tables with the same fields, whatever the order of the columns
    in each: the loop over a sequence and the loop over a permutation of it
    return tables with the same rows up to their order, read by column name;
    and uniting [a] with [b] and then with [c] gives the same rows, read by
    column name, as uniting [a] with the union of [b] and [c]. *)
Theorem merge_order_independent (s : StructType) (tables tables' : list DataFrame)
  (a b c : DataFrame) :
  uniform s tables -> tables <> [] -> Permutation tables tables' ->
  uniform s [a; b; c] ->
  (exists u u', merge tables = Ok (Some u) /\ merge tables' = Ok (Some u') /\
                forall cs, Permutation (select cs u) (select cs u')) /\
  (exists ab bc u u', unionByName a b = Ok ab /\ unionByName ab c = Ok u /\
                      unionByName b c = Ok bc /\ unionByName a bc = Ok u' /\
                      forall cs, select cs u = select cs u').
Proof.
  intros Hu Hne Hperm Habc. split.
  - assert (Hu' : uniform s tables').
    { destruct Hu as [Hnd Hall]. split; [ exact Hnd | ].
      now apply (Permutation_Forall Hperm). }
    destruct tables as [ | t ts ]; [ congruence | ].
    destruct tables' as [ | t' ts' ];
      [ apply Permutation_sym, Permutation_nil in Hperm; discriminate | ].
    destruct (merge_uniform s t ts Hu) as [u [Hm [_ [_ Hsel]]]].
    destruct (merge_uniform s t' ts' Hu') as [u' [Hm' [_ [_ Hsel']]]].
    exists u, u'. split; [ exact Hm | ]. split; [ exact Hm' | ].
    intros cs. rewrite Hsel, Hsel'. now apply Permutation_flat_map.
  - destruct Habc as [Hnd Hall].
    inversion Hall as [ | ? ? Ha Hall1 ]; subst.
    inversion Hall1 as [ | ? ? Hb Hall2 ]; subst.
    inversion Hall2 as [ | ? ? Hc _ ]; subst.
    assert (Hda : distinct_columns (schema a)).
    { unfold distinct_columns in *. eapply Permutation_NoDup; [ | exact Hnd ].
      now do 2 apply Permutation_map. }
    assert (Hdb : distinct_columns (schema b)).
    { unfold distinct_columns in *. eapply Permutation_NoDup; [ | exact Hnd ].
      now do 2 apply Permutation_map. }
    assert (Hab : Permutation (schema a) (schema b))
      by (eapply Permutation_trans; [ apply Permutation_sym; exact Ha | exact Hb ]).
    assert (Hbc : Permutation (schema b) (schema c))
      by (eapply Permutation_trans; [ apply Permutation_sym; exact Hb | exact Hc ]).
    assert (Hac : Permutation (schema a) (schema c))
      by (eapply Permutation_trans; [ exact Hab | exact Hbc ]).
    pose proof (unionByName_uniform a b Hda Hab) as Eab.
    pose proof (unionByName_uniform b c Hdb Hbc) as Ebc.
    set (ab := mkDF _ _) in Eab. set (bc := mkDF _ _) in Ebc.
    pose proof (unionByName_uniform ab c Hda Hac) as Eu.
    pose proof (unionByName_uniform a bc Hda Hab) as Eu'.
    set (u := mkDF _ _) in Eu. set (u' := mkDF _ _) in Eu'.
    exists ab, bc, u, u'. repeat (split; [ assumption | ]).
    intros cs.
    destruct (select_unionByName ab c u cs Hda Hac Eu) as [_ [_ ->]].
    destruct (select_unionByName a b ab cs Hda Hab Eab) as [_ [_ ->]].
    destruct (select_unionByName a bc u' cs Hda Hab Eu') as [_ [_ ->]].
    destruct (select_unionByName b c bc cs Hdb Hbc Ebc) as [_ [_ ->]].
    now rewrite app_assoc.
Qed.

(** ** Tables with the expected column set *)

Lemma Forall2_map_eq {A B : Type} (R : A -> B -> Prop) (g : B -> A) (l1 : list A)
  (l2 : list B) :
  Forall2 R l1 l2 -> (forall e f, In e l1 -> R e f -> g f = e) -> map g l2 = l1.
Proof.
  induction 1 as [ | e f l1 l2 HR _ IH ]; simpl; intros H; [ reflexivity | ].
  rewrite (H e f) by (auto; now left). f_equal.
  apply IH. intros e' f' Hin. apply H. now right.
Qed.

Lemma Forall2_in_l {A B : Type} (R : A -> B -> Prop) (l1 : list A) (l2 : list B)
  (e : A) :
  Forall2 R l1 l2 -> In e l1 -> exists f, In f l2 /\ R e f.
Proof.
  induction 1 as [ | e' f l1 l2 HR _ IH ]; simpl; intros Hin; [ contradiction | ].
  destruct Hin as [ -> | Hin ].
  - exists f. split; [ now left | exact HR ].
  - destruct (IH Hin) as [f' [Hf' HR']]. exists f'. split; [ now right | exact HR' ].
Qed.

Lemma variant_standardized (e f : StructField) :
  In e standard_schema -> variant_of e f -> standardized_field f = e.
Proof.
  intros Hin [Hn Ht]. destruct f as [n t]. simpl in Hn, Ht.
  unfold standard_schema in Hin. simpl in Hin.
  repeat (destruct Hin as [ <- | Hin ]; [ | ]); [ .. | contradiction Hin ];
    simpl in Hn, Ht;
    (destruct Hn as [ -> | [Hx ->] ]; [ | try discriminate Hx ]);
    unfold standardized_field; cbn [name dataType]; resolve_names; cbv iota;
    try reflexivity;
    (destruct Ht as [ -> | [Hr _] ];
     [ reflexivity
     | exfalso; unfold cast_rules in Hr; simpl in Hr; intuition discriminate ]).
Qed.

Lemma standard_schema_distinct : distinct_columns standard_schema.
Proof. apply distinct_duplicated. reflexivity. Qed.

Lemma conforms_standardized (df : DataFrame) :
  conforms df -> Permutation (map standardized_field (schema df)) standard_schema.
Proof.
  intros [l [Hperm Hall]].
  rewrite <- (Forall2_map_eq variant_of standardized_field standard_schema l Hall).
  - apply Permutation_map. now apply Permutation_sym.
  - intros e f. apply variant_standardized.
Qed.

Lemma standardized_keys (s : StructType) :
  map key (map name (map standardized_field s)) = map key (map name s).
Proof.
  rewrite !map_map. apply map_ext. intros f.
  apply resolver_key. apply standardized_field_same.
Qed.

Lemma conforms_expected (df : DataFrame) : conforms df -> expected_columns df.
Proof.
  intros H. split.
  - unfold distinct_columns. rewrite <- standardized_keys.
    eapply Permutation_NoDup; [ | exact standard_schema_distinct ].
    do 2 apply Permutation_map. apply Permutation_sym. now apply conforms_standardized.
  - destruct H as [l [Hperm Hall]]. intros c t Hin.
    assert (He : In (mkField c t) standard_schema)
      by (rule_cases Hin; unfold standard_schema; simpl; tauto).
    destruct (Forall2_in_l _ _ _ _ Hall He) as [f [Hf [Hn Ht]]].
    exists f. split; [ now apply (Permutation_in _ Hperm) | ]. simpl in Hn, Ht.
    split.
    + destruct Hn as [ Hn | [Hx _] ]; [ exact Hn | ].
      rule_cases Hin; discriminate Hx.
    + destruct Ht as [ -> | [_ Hnum] ]; [ | exact Hnum ].
      now apply (cast_rules_numeric c).
Qed.

(** C6. Any two tables with the expected column set are standardised to
    tables with the fields of the printed schema, up to their order: the
    same column names with the same types.  Their union by name has just
    these columns, and its rows, read by column name, are the rows of the
    first table followed by the rows of the second. *)
Theorem standardized_schemas_agree (T1 T2 : DataFrame) :
  conforms T1 -> conforms T2 ->
  exists N1 N2,
    standardize_schema T1 = Ok N1 /\ standardize_schema T2 = Ok N2 /\
    Permutation (schema N1) standard_schema /\
    Permutation (schema N2) standard_schema /\
    exists u, unionByName N1 N2 = Ok u /\
              schema u = schema N1 /\
              count u = (count N1 + count N2)%nat /\
              forall cs, select cs u = select cs N1 ++ select cs N2.
Proof.
  intros H1 H2.
  destruct (standardize_schema_succeeds T1 (expected_castable _ (conforms_expected _ H1)))
    as [N1 E1].
  destruct (standardize_schema_succeeds T2 (expected_castable _ (conforms_expected _ H2)))
    as [N2 E2].
  exists N1, N2. split; [ exact E1 | ]. split; [ exact E2 | ].
  assert (P1 : Permutation (schema N1) standard_schema)
    by (rewrite (standardize_schema_schema _ _ E1); now apply conforms_standardized).
  assert (P2 : Permutation (schema N2) standard_schema)
    by (rewrite (standardize_schema_schema _ _ E2); now apply conforms_standardized).
  split; [ exact P1 | ]. split; [ exact P2 | ].
  assert (Hnd : distinct_columns (schema N1)).
  { unfold distinct_columns. eapply Permutation_NoDup; [ | exact standard_schema_distinct ].
    do 2 apply Permutation_map. now apply Permutation_sym. }
  assert (P : Permutation (schema N1) (schema N2))
    by (eapply Permutation_trans; [ exact P1 | now apply Permutation_sym ]).
  pose proof (unionByName_uniform N1 N2 Hnd P) as Eu.
  set (u := mkDF _ _) in Eu. exists u. split; [ exact Eu | ].
  split; [ reflexivity | ]. split.
  - now destruct (select_unionByName N1 N2 u [] Hnd P Eu) as [_ [? _]].
  - intros cs. now destruct (select_unionByName N1 N2 u cs Hnd P Eu) as [_ [_ ?]].
Qed.

(** ** The run of the notebook *)

Lemma keeps_running_ret {A : Type} (a : A) : keeps_running (ret a).
Proof. intros st st' r H [= <- _]. exact H. Qed.

Lemma keeps_running_raise {A : Type} (e : exn) : keeps_running (@raise A e).
Proof. intros st st' r H [= <- _]. exact H. Qed.

Lemma keeps_running_lift {A : Type} (x : result A) : keeps_running (lift x).
Proof. intros st st' r H [= <- _]. exact H. Qed.

Lemma keeps_running_emit (e : event) : e <> SessionStopped -> keeps_running (emit e).
Proof.
  intros Hne st st' r [Ha [Hc Hs]] [= <- _]. unfold running. simpl.
  split; [ exact Ha | ]. split; [ now right | ].
  intros [ H | H ]; [ now apply Hne | now apply Hs ].
Qed.

Lemma keeps_running_bind {A B : Type} (m : M A) (k : A -> M B) :
  keeps_running m -> (forall a, keeps_running (k a)) -> keeps_running (bindM m k).
Proof.
  intros Hm Hk st st' r Hrun. unfold bindM.
  destruct (m st) as [st1 [a | e]] eqn:E.
  - apply (Hk a). now apply (Hm st st1 (Ok a)).
  - intros [= <- _]. now apply (Hm st st1 (Raise e)).
Qed.

Lemma keeps_running_inspect_loop (w : World) (files : list string) :
  keeps_running (inspect_loop w files).
Proof.
  induction files as [ | f files IH ]; simpl.
  - apply keeps_running_ret.
  - apply keeps_running_bind; [ now apply keeps_running_emit | intros _ ].
    apply keeps_running_bind; [ apply keeps_running_lift | intros df ].
    apply keeps_running_bind; [ now apply keeps_running_emit | intros _ ].
    exact IH.
Qed.

Lemma keeps_running_standardize_loop (w : World) (files : list string)
  (sdf : option DataFrame) :
  keeps_running (standardize_loop w sdf files).
Proof.
  revert sdf. induction files as [ | f files IH ]; simpl; intros sdf.
  - apply keeps_running_ret.
  - apply keeps_running_bind; [ now apply keeps_running_emit | intros _ ].
    apply keeps_running_bind; [ apply keeps_running_lift | intros df ].
    apply keeps_running_bind; [ apply keeps_running_lift | intros d ].
    apply keeps_running_bind; [ apply keeps_running_lift | intros sdf' ].
    apply IH.
Qed.

Lemma keeps_running_printSchema (sdf : option DataFrame) : keeps_running (printSchema sdf).
Proof.
  destruct sdf; simpl; [ now apply keeps_running_emit | apply keeps_running_raise ].
Qed.

Lemma keeps_running_shape (sdf : option DataFrame) : keeps_running (shape sdf).
Proof.
  destruct sdf; simpl; [ now apply keeps_running_emit | apply keeps_running_raise ].
Qed.

Lemma keeps_running_write_parquet (w : World) (sdf : option DataFrame) (path : string) :
  keeps_running (write_parquet w sdf path).
Proof.
  unfold write_parquet. destruct sdf as [ df | ]; [ | apply keeps_running_raise ].
  destruct (destination_writable w); [ | apply keeps_running_raise ].
  intros st st' r [Ha [Hc Hs]] [= <- _]. unfold running. simpl.
  split; [ exact Ha | ]. split; [ now right | ].
  intros [ H | H ]; [ discriminate H | now apply Hs ].
Qed.

Lemma releases_spark_stop : releases_on_success spark_stop.
Proof.
  intros st st' r [_ [Hc _]] [= <- <-]. left. split; [ reflexivity | ].
  unfold released. simpl. split; [ split; [ reflexivity | now left ] | now right ].
Qed.

Lemma releases_bind {A : Type} (m : M A) (k : A -> M unit) :
  keeps_running m -> (forall a, releases_on_success (k a)) ->
  releases_on_success (bindM m k).
Proof.
  intros Hm Hk st st' r Hrun. unfold bindM.
  destruct (m st) as [st1 [a | e]] eqn:E.
  - apply (Hk a). now apply (Hm st st1 (Ok a)).
  - intros [= <- <-]. right. split; [ now exists e | ].
    now apply (Hm st st1 (Raise e)).
Qed.

Lemma running_not_released (st : State) : running st -> ~ released st.
Proof. intros [Ha _] [Hr _]. congruence. Qed.

(** C8, as amended.  The run creates the session first.  When every cell
    returns, the last one, [spark.stop()], has released the session; when a
    cell raises, the run ends there, [spark.stop()] has not been reached and
    the session is still active. *)
Theorem session_released_iff_success (w : World) (previous : option DataFrame) :
  let st := fst (notebook w (initial previous)) in
  let r := snd (notebook w (initial previous)) in
  In SessionCreated (trace st) /\
  (released st <-> r = Ok tt) /\
  (forall e, r = Raise e -> running st).
Proof.
  assert (Hrest : forall st st' r,
             running st ->
             (files <-- lift (parquet_files w) ;;;
              _ <-- inspect_loop w files ;;;
              files <-- lift (parquet_files w) ;;;
              sdf <-- standardize_loop w None files ;;;
              _ <-- printSchema sdf ;;;
              _ <-- shape sdf ;;;
              _ <-- write_parquet w sdf raw_path ;;;
              spark_stop) st = (st', r) ->
             (r = Ok tt /\ released st' /\ In SessionCreated (trace st'))
             \/ ((exists e, r = Raise e) /\ running st')).
  { apply releases_bind; [ apply keeps_running_lift | intros files ].
    apply releases_bind; [ apply keeps_running_inspect_loop | intros _ ].
    apply releases_bind; [ apply keeps_running_lift | intros files' ].
    apply releases_bind; [ apply keeps_running_standardize_loop | intros sdf ].
    apply releases_bind; [ apply keeps_running_printSchema | intros _ ].
    apply releases_bind; [ apply keeps_running_shape | intros _ ].
    apply releases_bind; [ apply keeps_running_write_parquet | intros _ ].
    apply releases_spark_stop. }
  intros st r. subst st r.
  destruct (notebook w (initial previous)) as [st r] eqn:E. simpl.
  unfold notebook in E. unfold bindM at 1 in E. unfold getOrCreate at 1 in E.
  apply Hrest in E.
  - destruct E as [ [-> [Hrel Hc]] | [[e ->] Hr] ].
    + split; [ exact Hc | split ].
      * split; [ reflexivity | intros _; exact Hrel ].
      * discriminate.
    + split; [ apply Hr | split ].
      * split; [ intros H; now apply running_not_released in Hr | discriminate ].
      * intros e' _. exact Hr.
  - unfold running. simpl. split; [ reflexivity | ]. split; [ now left | ].
    intros [ H | [] ]. discriminate H.
Qed.

(** C9. When the landing directory has no file whose name ends in
    [.parquet], the loop leaves the accumulator [None], and the run raises at
    [sdf.printSchema()]: the session has been created, nothing has been
    written, and the cells after it ([shape], the write, [spark.stop()]) are
    not reached. *)
Theorem empty_input_raises (w : World) (previous : option DataFrame) :
  parquet_files w = Ok [] ->
  (forall st, standardize_loop w None [] st = (st, Ok None)) /\
  notebook w (initial previous)
  = (mkState true previous [SessionCreated],
     Raise (AttributeError "NoneType" "printSchema")).
Proof.
  intros H. split; [ reflexivity | ].
  unfold notebook, bindM, getOrCreate, lift. rewrite H. reflexivity.
Qed.

(** Every table that [spark.read.parquet] returns has distinct column
    names. *)
Lemma spark_read_parquet_distinct (w : World) (path : string) (df : DataFrame) :
  spark_read_parquet w path = Ok df -> distinct_columns (schema df).
Proof.
  unfold spark_read_parquet. destruct (landing w) as [ entries | ]; [ | discriminate ].
  destruct (find _ entries) as [ [n [ df0 | ]] | ]; try discriminate.
  unfold checkColumnNameDuplication.
  destruct (duplicated (map name (schema df0))) eqn:E; simpl; [ discriminate | ].
  intros [= <-]. now apply distinct_duplicated.
Qed.

(** The second loop of the notebook computes [accumulate] on the
    standardised tables of the files. *)
Lemma standardize_loop_accumulate (w : World) (files : list string)
  (tables : list DataFrame) :
  Forall2 (fun f t => exists df, spark_read_parquet w f = Ok df /\
                                 standardize_schema df = Ok t) files tables ->
  forall sdf st, snd (standardize_loop w sdf files st) = accumulate sdf tables.
Proof.
  induction 1 as [ | f t files tables [df [Hread Hstd]] _ IH ]; intros sdf st;
    [ reflexivity | ].
  simpl. unfold bindM, emit, lift. rewrite Hread, Hstd.
  destruct (accumulate_step sdf t) as [ sdf' | e ]; simpl; [ apply IH | reflexivity ].
Qed.

(** * Further properties *)

(** ** [standardize_schema]: which error, which fields, which cells *)

Lemma first_rule_error_ext (s s' : StructType) (rules : list (string * DataType)) :
  (forall c t, In (c, t) rules -> candidates s c = candidates s' c) ->
  first_rule_error s rules = first_rule_error s' rules.
Proof.
  induction rules as [ | [c t] rules IH ]; simpl; intros H; [ reflexivity | ].
  unfold rule_error. simpl. rewrite (H c t) by now left.
  rewrite IH; [ reflexivity | ]. intros c' t' Hin. apply (H c' t'). now right.
Qed.

Lemma cast_all_first_error (rules : list (string * DataType)) (df : DataFrame) :
  rules_apart rules ->
  match cast_all rules df with
  | Ok _ => first_rule_error (schema df) rules = None
  | Raise e => exists ae, e = AnalysisException ae /\
                          first_rule_error (schema df) rules = Some ae
  end.
Proof.
  revert df. induction rules as [ | [c t] rules IH ]; intros df Hap; [ reflexivity | ].
  simpl. rewrite withColumn_cast_eq. unfold rule_error. simpl.
  destruct (candidates (schema df) c) as [ | f [ | g l ] ] eqn:E; simpl.
  - now eexists.
  - destruct (canCast (dataType f) t) eqn:Ec; simpl; [ | now eexists ].
    set (d1 := mkDF _ _).
    rewrite (first_rule_error_ext (schema df) (schema d1) rules).
    + apply IH. now apply rules_apart_tail in Hap.
    + intros c' t' Hin. symmetry. apply candidates_cast_apart.
      now apply (rules_apart_head c t rules c' t').
  - now eexists.
Qed.

(** X1. Whether [standardize_schema] returns, and what it raises, is read
    off the schema of its argument: it raises the report of the first of the
    five casts, in order, whose name finds no column, several columns, or a
    column of a type that does not cast; it returns when no cast has a
    report. *)
Theorem standardize_schema_first_error (T : DataFrame) :
  match standardize_schema T with
  | Ok _ => first_rule_error (schema T) cast_rules = None
  | Raise e => exists ae, e = AnalysisException ae /\
                          first_rule_error (schema T) cast_rules = Some ae
  end.
Proof.
  rewrite standardize_schema_eq.
  pose proof (cast_all_first_error cast_rules T cast_rules_apart) as H.
  destruct (cast_all cast_rules T); exact H.
Qed.




Lemma long_to_int_range (z : Z) : Int_MinValue <= long_to_int z <= Int_MaxValue.
Proof.
  unfold long_to_int, Int_MinValue, Int_MaxValue.
  pose proof (Z.mod_pos_bound (z + 2 ^ 31) (2 ^ 32) ltac:(lia)). lia.
Qed.

Lemma long_to_int_congruent (z : Z) : (long_to_int z - z) mod 2 ^ 32 = 0.
Proof.
  unfold long_to_int.
  replace ((z + 2 ^ 31) mod 2 ^ 32 - 2 ^ 31 - z)
    with (- ((z + 2 ^ 31) / 2 ^ 32) * 2 ^ 32).
  - apply Z.mod_mul. lia.
  - pose proof (Z.div_mod (z + 2 ^ 31) (2 ^ 32) ltac:(lia)). lia.
Qed.

Lemma long_to_int_small (z : Z) :
  Int_MinValue <= z <= Int_MaxValue -> long_to_int z = z.
Proof.
  unfold long_to_int, Int_MinValue, Int_MaxValue. intros H.
  rewrite Z.mod_small by lia. lia.
Qed.

(** X5. The cast of a [long] cell to [integer] never raises and never
    gives [NULL] for a value: the result is in the 32-bit range, differs from
    the value by a multiple of [2^32], and is the value itself when the value
    is in the 32-bit range.  A [NULL] cell stays [NULL] under every cast. *)
Theorem cast_long_to_int (z : Z) :
  exists z', cast_value LongType IntegerType (LongV z) = IntV z' /\
             Int_MinValue <= z' <= Int_MaxValue /\
             (z' - z) mod 2 ^ 32 = 0 /\
             (Int_MinValue <= z <= Int_MaxValue -> z' = z) /\
             forall from to, cast_value from to Null = Null.
Proof.
  exists (long_to_int z). split; [ reflexivity | ].
  split; [ apply long_to_int_range | ].
  split; [ apply long_to_int_congruent | ].
  split; [ apply long_to_int_small | ].
  intros from to. unfold cast_value.
  destruct (DataType_eqb from to); [ reflexivity | ]. now destruct from, to.
Qed.


Lemma replace_where_hit (p : StructField -> bool) (v : value) (s : StructType) (r : Row)
  (j : nat) (f : StructField) :
  nth_error s j = Some f -> p f = true ->
  nth_error (replace_where p v s r) j = option_map (fun _ => v) (nth_error r j).
Proof.
  revert r j. induction s as [ | g s IH ]; intros r j.
  - destruct j; discriminate.
  - destruct r as [ | x r ]; simpl; [ now destruct j | ].
    destruct j as [ | j ]; simpl.
    + intros [= ->] ->. reflexivity.
    + apply IH.
Qed.

Lemma candidates_resolves (s : StructType) (c : string) (f : StructField) :
  candidates s c = [f] -> resolver (name f) c = true.
Proof.
  intros E. assert (H : In f (candidates s c)) by (rewrite E; now left).
  now apply filter_In in H.
Qed.

(** The cell that a name finds is the cell under its one column. *)
Lemma get_at (s : StructType) (r : Row) (c : string) (j : nat) (f : StructField) :
  candidates s c = [f] -> nth_error s j = Some f ->
  get s r c = match nth_error r j with Some v => v | None => Null end.
Proof.
  revert r j. induction s as [ | g s IH ]; intros r j E Hj.
  - destruct j; discriminate.
  - pose proof (candidates_resolves _ _ _ E) as Hres.
    unfold candidates in E. simpl in E.
    destruct r as [ | x r ]; [ now destruct j | ]. simpl.
    destruct (resolver (name g) c) eqn:Eg.
    + injection E as -> E. destruct j as [ | j ]; [ reflexivity | ].
      simpl in Hj. apply nth_error_In in Hj.
      apply (proj1 (filter_nil_iff _ _)) with (x := f) in E; [ | exact Hj ].
      congruence.
    + destruct j as [ | j ]; simpl in Hj.
      * injection Hj as ->. congruence.
      * apply (IH r j E Hj).
Qed.

Lemma cast_rows_column (c : string) (t : DataType) (df : DataFrame) (s' : StructType)
  (j : nat) (f : StructField) :
  candidates (schema df) c = [f] -> nth_error (schema df) j = Some f ->
  column_at j (mkDF s' (cast_rows c (dataType f) t df))
  = map (option_map (cast_value (dataType f) t)) (column_at j df).
Proof.
  intros E Hj. unfold column_at, cast_rows. simpl. rewrite !map_map.
  apply map_ext. intros r.
  rewrite (replace_where_hit _ _ _ _ j f Hj (candidates_resolves _ _ _ E)).
  rewrite (get_at _ r c j f E Hj). now destruct (nth_error r j).
Qed.

Lemma cast_all_cells (rules : list (string * DataType)) (df df' : DataFrame)
  (c : string) (t : DataType) (j : nat) (f : StructField) :
  rules_apart rules -> cast_all rules df = Ok df' -> In (c, t) rules ->
  nth_error (schema df) j = Some f -> resolver (name f) c = true ->
  nth_error (schema df') j = Some (mkField c t) /\
  column_at j df' = map (option_map (cast_value (dataType f) t)) (column_at j df).
Proof.
  revert df. induction rules as [ | [c0 t0] rules IH ]; simpl;
    intros df Hap H Hin Hj Hres; [ contradiction | ].
  invert_bind H as d1 E. apply withColumn_cast_inv in E.
  destruct E as [g [Ec [_ ->]]].
  destruct Hin as [ [= -> ->] | Hin ].
  - assert (g = f) by (symmetry; apply (candidates_one_forces _ _ _ _ Ec);
                       [ now apply nth_error_In in Hj | exact Hres ]).
    subst g.
    destruct (cast_all_frame rules _ df' j (mkField c t) H) as [Hs Hc].
    + simpl. rewrite nth_error_map, Hj. simpl. unfold cast_field. now rewrite Hres.
    + intros c' t' Hin'. simpl. now apply (rules_apart_head c t rules c' t').
    + split; [ exact Hs | ]. rewrite Hc. now apply cast_rows_column.
  - assert (Hc0 : resolver (name f) c0 = false).
    { rewrite (resolver_same_l _ _ _ Hres), resolver_sym.
      now apply (rules_apart_head c0 t0 rules c t). }
    destruct (IH _ (rules_apart_tail _ _ Hap) H Hin) as [Hs Hc]; auto.
    + simpl. rewrite nth_error_map, Hj. simpl. now rewrite cast_field_apart.
    + split; [ exact Hs | ]. rewrite Hc. f_equal.
      unfold column_at, cast_rows. simpl. rewrite map_map.
      apply map_ext. intros r. now apply replace_where_frame with (f := f).
Qed.

(** X6. In the column of a cast, each cell of the result is the cast of the
    cell of the argument in the same row, from the type the column had to
    the type of the cast; the column stays where it was. *)
Theorem standardize_schema_cast_cells (T N : DataFrame) (c : string) (t : DataType)
  (j : nat) (f : StructField) :
  standardize_schema T = Ok N -> In (c, t) cast_rules ->
  nth_error (schema T) j = Some f -> resolver (name f) c = true ->
  nth_error (schema N) j = Some (mkField c t) /\
  column_at j N = map (option_map (cast_value (dataType f) t)) (column_at j T).
Proof.
  intros H Hin Hj Hres. apply standardize_schema_inv in H. destruct H as [d0 [Hd ->]].
  destruct (cast_all_cells cast_rules T d0 c t j f cast_rules_apart Hd Hin Hj Hres)
    as [Hs Hc].
  split.
  - rewrite withColumnRenamed_schema, nth_error_map, Hs. simpl.
    unfold rename_field. simpl.
    destruct (cast_rules_not_airport c t Hin) as [Ha _].
    rewrite resolver_sym in Ha. now rewrite Ha.
  - unfold column_at in *. now rewrite withColumnRenamed_rows.
Qed.


(** ** [unionByName] and the loop, whenever they return *)

Lemma checkColumnNameDuplication_distinct (s : StructType) :
  checkColumnNameDuplication s = Ok tt -> distinct_columns s.
Proof.
  unfold checkColumnNameDuplication.
  destruct (duplicated (map name s)) eqn:E; [ discriminate | ].
  intros _. now apply distinct_duplicated.
Qed.

Lemma compareAndAddFields_inv (ls rs : StructType) (ps : list (StructField * StructField)) :
  compareAndAddFields ls rs = Ok ps ->
  map fst ps = ls /\
  Forall (fun p => In (snd p) rs /\ resolver (name (fst p)) (name (snd p)) = true) ps.
Proof.
  revert ps. induction ls as [ | lf ls IH ]; simpl; intros ps H.
  - injection H as <-. split; [ reflexivity | constructor ].
  - destruct (find (fun rf => resolver (name lf) (name rf)) rs) as [ rf | ] eqn:E;
      [ | discriminate ].
    invert_bind H as ps' E'. injection H as <-.
    destruct (IH ps' eq_refl) as [Hm Hall]. simpl. split; [ now rewrite Hm | ].
    constructor; [ | exact Hall ]. apply find_some in E. exact E.
Qed.

Lemma widenSetOperationTypes_inv (ps : list (StructField * StructField)) (al : list aligned) :
  widenSetOperationTypes ps = Ok al ->
  Forall2 (fun p a => lattr a = fst p /\ rattr a = snd p /\
                      findWiderTypeForTwo (dataType (fst p)) (dataType (snd p))
                      = Some (widened a)) ps al.
Proof.
  revert al. induction ps as [ | [lf rf] ps IH ]; simpl; intros al H.
  - injection H as <-. constructor.
  - destruct (findWiderTypeForTwo (dataType lf) (dataType rf)) as [ t | ] eqn:E;
      [ | discriminate ].
    invert_bind H as al' E'. injection H as <-.
    constructor; [ now repeat split | now apply IH ].
Qed.

Lemma Forall2_map_same {A B C : Type} (R : A -> B -> Prop) (g : A -> C) (h : B -> C)
  (l1 : list A) (l2 : list B) :
  Forall2 R l1 l2 -> (forall a b, R a b -> h b = g a) -> map h l2 = map g l1.
Proof.
  induction 1 as [ | a b l1 l2 HR _ IH ]; simpl; intros H; [ reflexivity | ].
  now rewrite (H a b HR), IH.
Qed.


Lemma unionByName_inv (l r u : DataFrame) :
  unionByName l r = Ok u ->
  distinct_columns (schema l) /\ distinct_columns (schema r) /\
  List.length (schema r) = List.length (schema l) /\
  count u = (count l + count r)%nat /\
  Forall2 (fun lf uf =>
             name uf = name lf /\
             exists rf, In rf (schema r) /\ resolver (name lf) (name rf) = true /\
                        findWiderTypeForTwo (dataType lf) (dataType rf)
                        = Some (dataType uf))
          (schema l) (schema u).
Proof.
  unfold unionByName. intros H.
  invert_bind H as x1 E1. destruct x1. invert_bind H as x2 E2. destruct x2.
  invert_bind H as ps E3.
  destruct (Nat.eqb (List.length (schema l)) (List.length (schema r))) eqn:En;
    simpl in H; [ | discriminate ].
  invert_bind H as al E4. injection H as <-.
  apply checkColumnNameDuplication_distinct in E1, E2.
  apply Nat.eqb_eq in En.
  apply compareAndAddFields_inv in E3. destruct E3 as [Hm Hall].
  apply widenSetOperationTypes_inv in E4.
  split; [ exact E1 | ]. split; [ exact E2 | ]. split; [ now symmetry | ].
  split; [ unfold count; simpl; now rewrite length_app, !length_map | ].
  simpl. rewrite <- Hm. clear Hm En E1 E2.
  induction E4 as [ | p a ps al [Hl [Hr Hw]] _ IH ]; simpl; [ constructor | ].
  inversion Hall as [ | ? ? [Hin Hres] Hall' ]; subst.
  constructor; [ | now apply IH ].
  simpl. split; [ now rewrite Hl | ].
  exists (snd p). now repeat split.
Qed.


Lemma unionByName_columns (l r u : DataFrame) :
  unionByName l r = Ok u -> columns u = columns l.
Proof.
  intros H. destruct (unionByName_inv l r u H) as [_ [_ [_ [_ H5]]]].
  unfold columns. apply (Forall2_map_same _ _ _ _ _ H5). now intros a b [Hn _].
Qed.

Lemma accumulate_inv (tables : list DataFrame) (acc : DataFrame)
  (r : option DataFrame) :
  accumulate (Some acc) tables = Ok r ->
  exists u, r = Some u /\ columns u = columns acc /\
            count u = (count acc + list_sum (map count tables))%nat /\
            Forall (fun t => List.length (columns t) = List.length (columns acc)) tables.
Proof.
  revert acc. induction tables as [ | t tables IH ]; simpl; intros acc H.
  - injection H as <-. exists acc. repeat split; auto.
  - invert_bind H as sdf' E. invert_bind E as u1 E1. injection E as <-.
    destruct (IH u1 H) as [u [-> [Hc [Hn Hall]]]].
    pose proof (unionByName_columns _ _ _ E1) as Hc1.
    destruct (unionByName_inv _ _ _ E1) as [_ [_ [Hlen [Hcount _]]]].
    exists u. split; [ reflexivity | ]. split; [ congruence | ].
    split; [ lia | ]. rewrite Hc1 in Hall. constructor; [ | exact Hall ].
    unfold columns. now rewrite !length_map.
Qed.

(** X8. Whenever the loop returns a table, for any tables at all: there was
    a first table, the result has its column names in its order, every later
    table has as many columns, and the row count of the result is the sum of
    the row counts of the tables. *)
Theorem merge_returns (tables : list DataFrame) (u : DataFrame) :
  merge tables = Ok (Some u) ->
  exists t rest, tables = t :: rest /\
                 columns u = columns t /\
                 count u = list_sum (map count tables) /\
                 Forall (fun t' => List.length (columns t') = List.length (columns t)) rest.
Proof.
  unfold merge. destruct tables as [ | t rest ]; simpl; [ discriminate | ].
  intros H. destruct (accumulate_inv rest t _ H) as [u' [[= <-] [Hc [Hn Hall]]]].
  now exists t, rest.
Qed.


(** ** The run: what it reads and when it writes *)

Lemma triple_ret {A : Type} (I : State -> Prop) (a : A) (Q : A -> Prop) :
  Q a -> triple I (ret a) Q.
Proof. intros HQ st st' r HI [= <- <-]. split; [ exact HI | now intros a' [= <-] ]. Qed.

Lemma triple_raise {A : Type} (I : State -> Prop) (e : exn) (Q : A -> Prop) :
  triple I (raise e) Q.
Proof. intros st st' r HI [= <- <-]. split; [ exact HI | discriminate ]. Qed.

Lemma triple_lift {A : Type} (I : State -> Prop) (x : result A) (Q : A -> Prop) :
  (forall a, x = Ok a -> Q a) -> triple I (lift x) Q.
Proof. intros HQ st st' r HI [= <- <-]. split; [ exact HI | exact HQ ]. Qed.

Lemma triple_emit (I : State -> Prop) (e : event) :
  admits I e -> triple I (emit e) (fun _ => True).
Proof. intros H st st' r HI [= <- <-]. split; [ now apply H | auto ]. Qed.

Lemma triple_bind {A B : Type} (I : State -> Prop) (m : M A) (k : A -> M B)
  (Q : A -> Prop) (Q' : B -> Prop) :
  triple I m Q -> (forall a, Q a -> triple I (k a) Q') -> triple I (bindM m k) Q'.
Proof.
  intros Hm Hk st st' r HI. unfold bindM.
  destruct (m st) as [st1 [a | e]] eqn:E.
  - destruct (Hm st st1 (Ok a) HI E) as [HI1 HQ]. apply (Hk a); auto.
  - intros [= <- <-]. destruct (Hm st st1 (Raise e) HI E) as [HI1 _].
    split; [ exact HI1 | discriminate ].
Qed.

Lemma triple_weaken {A : Type} (I : State -> Prop) (m : M A) (Q : A -> Prop) :
  triple I m Q -> triple I m (fun _ => True).
Proof. intros H st st' r HI E. destruct (H st st' r HI E). split; auto. Qed.

Lemma triple_inspect_loop (I : State -> Prop) (w : World) (files : list string) :
  (forall f, In f files -> admits I (ReadParquet f)) ->
  (forall s, admits I (PrintSchema s)) ->
  triple I (inspect_loop w files) (fun _ => True).
Proof.
  intros Hread Hprint. induction files as [ | f files IH ]; simpl.
  - now apply triple_ret.
  - eapply triple_bind; [ apply triple_emit; apply Hread; now left | intros _ _ ].
    eapply triple_bind; [ apply (triple_lift I _ (fun _ => True)); auto | intros df _ ].
    eapply triple_bind; [ apply triple_emit; apply Hprint | intros _ _ ].
    apply IH. intros f' Hf'. apply Hread. now right.
Qed.

Lemma triple_standardize_loop (I : State -> Prop) (w : World) (files : list string)
  (sdf : option DataFrame) :
  (forall f, In f files -> admits I (ReadParquet f)) ->
  triple I (standardize_loop w sdf files) (fun _ => True).
Proof.
  intros Hread. revert sdf. induction files as [ | f files IH ]; simpl; intros sdf.
  - now apply triple_ret.
  - eapply triple_bind; [ apply triple_emit; apply Hread; now left | intros _ _ ].
    eapply triple_bind; [ apply (triple_lift I _ (fun _ => True)); auto | intros df _ ].
    eapply triple_bind; [ apply (triple_lift I _ (fun _ => True)); auto | intros t _ ].
    eapply triple_bind; [ apply (triple_lift I _ (fun _ => True)); auto | intros sdf' _ ].
    apply IH. intros f' Hf'. apply Hread. now right.
Qed.

Lemma triple_printSchema (I : State -> Prop) (sdf : option DataFrame) :
  (forall s, admits I (PrintSchema s)) -> triple I (printSchema sdf) (fun _ => True).
Proof.
  intros H. destruct sdf; simpl; [ now apply triple_emit | apply triple_raise ].
Qed.

Lemma triple_shape (I : State -> Prop) (sdf : option DataFrame) :
  (forall n m, admits I (PrintShape n m)) -> triple I (shape sdf) (fun _ => True).
Proof.
  intros H. destruct sdf; simpl; [ now apply triple_emit | apply triple_raise ].
Qed.

Lemma parquet_files_paths (w : World) (files : list string) :
  parquet_files w = Ok files -> forall p, In p files -> parquet_path w p.
Proof.
  unfold parquet_files, os_listdir.
  destruct (landing w) as [ entries | ] eqn:E; simpl; [ | discriminate ].
  intros [= <-] p Hp. apply in_map_iff in Hp. destruct Hp as [f [<- Hf]].
  apply filter_In in Hf. destruct Hf as [Hf Hs]. now exists entries, f.
Qed.

(** X9. Every file that a run reads, in either loop, is an entry of the
    landing directory whose name ends in [.parquet], under the path
    [data_path/name]; other entries are never read. *)
Theorem notebook_reads_only_parquet (w : World) (previous : option DataFrame)
  (p : string) :
  In (ReadParquet p) (trace (fst (notebook w (initial previous)))) ->
  parquet_path w p.
Proof.
  set (I := reads_only (parquet_path w)).
  assert (Hother : forall e, (forall q, e <> ReadParquet q) -> admits I e).
  { intros e He st HI q [ Hq | Hq ]; [ now destruct (He q) | now apply HI ]. }
  assert (Hread : forall f, parquet_path w f -> admits I (ReadParquet f)).
  { intros f Hf st HI q [ [= <-] | Hq ]; [ exact Hf | now apply HI ]. }
  assert (H : triple I (notebook w) (fun _ => True)).
  { unfold notebook.
    eapply triple_bind with (Q := fun _ => True).
    { intros st st' r HI [= <- <-]. split; [ | auto ].
      intros q [ Hq | Hq ]; [ discriminate Hq | now apply HI ]. }
    intros _ _.
    eapply triple_bind;
      [ apply (triple_lift I _ (fun files => forall q, In q files -> parquet_path w q));
        apply parquet_files_paths | intros files Hfiles ].
    eapply triple_bind;
      [ apply triple_inspect_loop;
        [ intros f Hf; apply Hread; now apply Hfiles
        | intros s; apply Hother; discriminate ] | intros _ _ ].
    eapply triple_bind;
      [ apply (triple_lift I _ (fun files => forall q, In q files -> parquet_path w q));
        apply parquet_files_paths | intros files' Hfiles' ].
    eapply triple_bind;
      [ apply triple_standardize_loop; intros f Hf; apply Hread; now apply Hfiles'
      | intros sdf _ ].
    eapply triple_bind;
      [ apply triple_printSchema; intros s; apply Hother; discriminate | intros _ _ ].
    eapply triple_bind;
      [ apply triple_shape; intros n m; apply Hother; discriminate | intros _ _ ].
    eapply triple_bind with (Q := fun _ => True).
    { unfold write_parquet. destruct sdf as [ df | ]; [ | apply triple_raise ].
      destruct (destination_writable w); [ | apply triple_raise ].
      intros st st' r HI [= <- <-]. split; [ | auto ].
      intros q [ Hq | Hq ]; [ discriminate Hq | now apply HI ]. }
    intros _ _ st st' r HI [= <- <-]. split; [ | auto ].
    intros q [ Hq | Hq ]; [ discriminate Hq | now apply HI ]. }
  destruct (notebook w (initial previous)) as [st r] eqn:E. simpl.
  destruct (H (initial previous) st r) as [HI _]; [ | exact E | ].
  - intros q [].
  - apply HI.
Qed.

Lemma on_error_bind {A B : Type} (I : State -> Prop) (m : M A) (k : A -> M B) :
  triple I m (fun _ => True) -> (forall a, on_error I (k a)) -> on_error I (bindM m k).
Proof.
  intros Hm Hk st st' e HI. unfold bindM.
  destruct (m st) as [st1 [a | e1]] eqn:E.
  - destruct (Hm st st1 (Ok a) HI E) as [HI1 _]. now apply (Hk a).
  - intros [= <- _]. now destruct (Hm st st1 (Raise e1) HI E).
Qed.

(** X10. A run that raises has written nothing: there is no write among
    its events, and, unless what it raises is the failure of the write
    itself, the destination holds what it held before the run.  The write is
    the last step that can raise. *)
Theorem notebook_writes_last (w : World) (previous : option DataFrame) (e : exn) :
  snd (notebook w (initial previous)) = Raise e ->
  (forall p df, ~ In (WriteParquet p df) (trace (fst (notebook w (initial previous))))) /\
  (e <> IOError raw_path ->
   destination (fst (notebook w (initial previous))) = previous).
Proof.
  set (I := nothing_written previous).
  assert (Hother : forall ev, (forall q df, ev <> WriteParquet q df) -> admits I ev).
  { intros ev He st [Hd Hw]. split; [ exact Hd | ].
    intros q df [ Hq | Hq ]; [ now destruct (He q df) | now apply (Hw q df) ]. }
  assert (H : on_error I (notebook w)).
  { unfold notebook.
    apply on_error_bind.
    { intros st st' r [Hd Hw] [= <- <-]. split; [ | auto ]. split; [ exact Hd | ].
      intros q df [ Hq | Hq ]; [ discriminate Hq | now apply (Hw q df) ]. }
    intros _.
    apply on_error_bind; [ apply (triple_lift I _ (fun _ => True)); auto | intros files ].
    apply on_error_bind;
      [ apply triple_inspect_loop; intros; apply Hother; discriminate | intros _ ].
    apply on_error_bind; [ apply (triple_lift I _ (fun _ => True)); auto | intros files' ].
    apply on_error_bind;
      [ apply triple_standardize_loop; intros; apply Hother; discriminate | intros sdf ].
    apply on_error_bind;
      [ apply triple_printSchema; intros; apply Hother; discriminate | intros _ ].
    apply on_error_bind;
      [ apply triple_shape; intros; apply Hother; discriminate | intros _ ].
    intros st st' e' HI. unfold bindM, write_parquet, spark_stop, raise.
    destruct sdf as [ df | ]; [ | now intros [= <- _] ].
    destruct (destination_writable w); [ discriminate | now intros [= <- _] ]. }
  destruct (notebook w (initial previous)) as [st r] eqn:E. simpl. intros ->.
  destruct (H (initial previous) st e) as [Hd Hw]; [ | exact E | ].
  - split; [ reflexivity | intros q df [] ].
  - split; [ exact Hw | intros _; exact Hd ].
Qed.

(** X11. When the landing directory does not exist, the run raises
    [FileNotFoundError] at the first listing: the session has been created
    and nothing has been read or written. *)
Theorem missing_landing_raises (w : World) (previous : option DataFrame) :
  landing w = None ->
  notebook w (initial previous)
  = (mkState true previous [SessionCreated], Raise (FileNotFoundError data_path)).
Proof.
  intros H. unfold notebook, bindM, getOrCreate, lift, parquet_files, os_listdir.
  rewrite H. reflexivity.
Qed.


(** ** The run, end to end *)

Lemma standardize_loop_inv (w : World) (files : list string) (sdf r : option DataFrame)
  (st st' : State) :
  standardize_loop w sdf files st = (st', Ok r) ->
  exists tables, Forall2 (standardized_from w) files tables /\
                 accumulate sdf tables = Ok r.
Proof.
  revert sdf st. induction files as [ | f files IH ]; simpl; intros sdf st H.
  - injection H as _ <-. exists []. split; [ constructor | reflexivity ].
  - unfold bindM, emit, lift in H.
    destruct (spark_read_parquet w f) as [ df | ] eqn:Er; [ | discriminate ].
    destruct (standardize_schema df) as [ t | ] eqn:Es; [ | discriminate ].
    destruct (accumulate_step sdf t) as [ sdf' | ] eqn:Ea; [ | discriminate ].
    destruct (IH _ _ H) as [tables [Hall Hacc]].
    exists (t :: tables). split.
    + constructor; [ now exists df | exact Hall ].
    + simpl. now rewrite Ea.
Qed.

(** X12. When a run returns, the destination holds the table that the
    loop makes of the standardised tables of the parquet files of the
    landing directory, in the order of the listing; there was at least one
    such file, the destination could be written, and the shape printed is
    the row count and the number of columns of that table. *)
Theorem notebook_returns (w : World) (previous : option DataFrame) (st : State) :
  notebook w (initial previous) = (st, Ok tt) ->
  exists files tables u,
    parquet_files w = Ok files /\ files <> [] /\
    Forall2 (standardized_from w) files tables /\
    merge tables = Ok (Some u) /\
    destination st = Some u /\
    destination_writable w = true /\
    In (PrintShape (count u) (List.length (columns u))) (trace st) /\
    In (WriteParquet raw_path u) (trace st).
Proof.
  unfold notebook, bindM, getOrCreate, lift. intros H.
  destruct (parquet_files w) as [ files | ] eqn:Ef; [ | discriminate ].
  destruct (inspect_loop w files _) as [st1 [ [] | ]] eqn:E1; [ | discriminate ].
  destruct (standardize_loop w None files st1) as [st2 [ sdf | ]] eqn:E2;
    [ | discriminate ].
  destruct sdf as [ u | ]; [ | discriminate ].
  unfold printSchema, shape, write_parquet, emit, raise, spark_stop in H.
  destruct (destination_writable w) eqn:Ew; [ | discriminate ].
  injection H as <-. simpl.
  destruct (standardize_loop_inv _ _ _ _ _ _ E2) as [tables [Hall Hacc]].
  exists files, tables, u. split; [ reflexivity | ].
  split.
  - intros ->. inversion Hall; subst. discriminate Hacc.
  - repeat split; auto; simpl; tauto.
Qed.












(** ** The list of files *)









Lemma cast_all_rows (rules : list (string * DataType)) (df df' : DataFrame) :
  cast_all rules df = Ok df' ->
  Forall2 (fun r r' => List.length r' = List.length r) (rows df) (rows df').
Proof.
  revert df. induction rules as [ | [c t] rules IH ]; simpl; intros df H.
  - injection H as <-. induction (rows df); constructor; auto.
  - invert_bind H as d1 E. apply withColumn_cast_inv in E.
    destruct E as [f [_ [_ ->]]]. specialize (IH _ H). simpl in IH.
    unfold cast_rows in IH. remember (rows df') as rs' eqn:Er. clear Er H.
    revert rs' IH. induction (rows df) as [ | r rs IHr ]; simpl; intros rs' IH;
      inversion IH; subst; constructor.
    + now rewrite replace_where_length in *.
    + now apply IHr.
Qed.

(** X15. The rows of the result are the rows of the argument, one for one
    and in their order, each with as many cells as it had: a cast replaces
    cells and adds none. *)
Theorem standardize_schema_rows (T N : DataFrame) :
  standardize_schema T = Ok N ->
  Forall2 (fun r r' => List.length r' = List.length r) (rows T) (rows N).
Proof.
  intros H. apply standardize_schema_inv in H. destruct H as [d0 [Hd ->]].
  rewrite withColumnRenamed_rows. now apply (cast_all_rows cast_rules).
Qed.


(** ** The checks that compute are sound *)


Lemma castable_where_present_check (df : DataFrame) :
  castable_where_presentb df = true -> castable_where_present df.
Proof.
  unfold castable_where_presentb. rewrite forallb_forall.
  intros H f c t Hf Hin Hres. specialize (H f Hf).
  rewrite forallb_forall in H. specialize (H (c, t) Hin). simpl in H.
  now rewrite Hres in H.
Qed.

End Engine.

(** * Instances of the theorems and refutations *)




(** [standardize_schema_raises_iff] on a table without [passenger_count]. *)
Lemma standardize_schema_raises_iff_witness :
  distinct_columns (schema no_passenger_count) /\
  castable_where_present no_passenger_count /\
  (isOk (standardize_schema no_string_cast no_passenger_count) = false
   <-> required_absent no_passenger_count) /\
  (forall e, standardize_schema no_string_cast no_passenger_count = Raise e ->
     exists c t, In (c, t) cast_rules /\ candidates (schema no_passenger_count) c = [] /\
                 e = AnalysisException (UNRESOLVED_COLUMN c)).
Proof.
  assert (H1 : distinct_columns (schema no_passenger_count))
    by (apply distinct_duplicated; reflexivity).
  assert (H2 : castable_where_present no_passenger_count)
    by (apply castable_where_present_check; reflexivity).
  split; [ exact H1 | ]. split; [ exact H2 | ].
  apply (standardize_schema_raises_iff no_string_cast no_passenger_count H1 H2).
Defined.


Lemma small_tables_uniform : uniform small_schema [small_a; small_b; small_c].
Proof.
  split; [ apply distinct_duplicated; reflexivity | ].
  repeat constructor.
  unfold small_schema, small_c. simpl.
  eapply perm_trans; [ apply perm_skip; apply perm_swap | apply perm_swap ].
Defined.

(** [merge_row_count] on the three small tables: 2 + 1 + 2 rows. *)
Lemma merge_row_count_witness :
  uniform small_schema [small_a; small_b; small_c] /\
  exists u, merge no_string_cast [small_a; small_b; small_c] = Ok (Some u) /\
            count u = list_sum (map count [small_a; small_b; small_c]) /\
            forall cs, select cs u = flat_map (select cs) [small_a; small_b; small_c].
Proof.
  split; [ exact small_tables_uniform | ].
  apply (merge_row_count no_string_cast small_schema small_a [small_b; small_c]
           small_tables_uniform).
Defined.

(** [merge_order_independent] on the three small tables, the third of which
    lists its columns in another order. *)
Lemma merge_order_independent_witness :
  uniform small_schema [small_a; small_b; small_c] /\
  [small_a; small_b; small_c] <> [] /\
  Permutation [small_a; small_b; small_c] [small_c; small_a; small_b] /\
  (exists u u', merge no_string_cast [small_a; small_b; small_c] = Ok (Some u) /\
                merge no_string_cast [small_c; small_a; small_b] = Ok (Some u') /\
                forall cs, Permutation (select cs u) (select cs u')) /\
  (exists ab bc u u',
      unionByName no_string_cast small_a small_b = Ok ab /\
      unionByName no_string_cast ab small_c = Ok u /\
      unionByName no_string_cast small_b small_c = Ok bc /\
      unionByName no_string_cast small_a bc = Ok u' /\
      forall cs, select cs u = select cs u').
Proof.
  assert (H1 : [small_a; small_b; small_c] <> []) by discriminate.
  assert (H2 : Permutation [small_a; small_b; small_c] [small_c; small_a; small_b])
    by (eapply perm_trans; [ apply perm_skip; apply perm_swap | apply perm_swap ]).
  split; [ exact small_tables_uniform | ]. split; [ exact H1 | ]. split; [ exact H2 | ].
  apply (merge_order_independent no_string_cast small_schema
           [small_a; small_b; small_c] [small_c; small_a; small_b]
           small_a small_b small_c small_tables_uniform H1 H2 small_tables_uniform).
Defined.

Lemma yellow_2022_12_conforms : conforms yellow_2022_12.
Proof.
  exists (schema yellow_2022_12). split; [ apply Permutation_refl | ].
  unfold standard_schema, yellow_2022_12, variant_of, cast_rules. simpl.
  repeat (constructor; [ simpl; tauto | ]). constructor.
Defined.

Lemma yellow_2023_04_conforms : conforms yellow_2023_04.
Proof.
  exists (schema yellow_2023_04). split; [ apply Permutation_refl | ].
  unfold standard_schema, yellow_2023_04, variant_of, cast_rules. simpl.
  repeat (constructor; [ simpl; tauto | ]). constructor.
Defined.

(** [standardized_schemas_agree] on the tables of the two kinds of file. *)
Lemma standardized_schemas_agree_witness :
  conforms yellow_2022_12 /\ conforms yellow_2023_04 /\
  exists N1 N2,
    standardize_schema no_string_cast yellow_2022_12 = Ok N1 /\
    standardize_schema no_string_cast yellow_2023_04 = Ok N2 /\
    Permutation (schema N1) standard_schema /\
    Permutation (schema N2) standard_schema /\
    exists u, unionByName no_string_cast N1 N2 = Ok u /\
              schema u = schema N1 /\
              count u = (count N1 + count N2)%nat /\
              forall cs, select cs u = select cs N1 ++ select cs N2.
Proof.
  split; [ exact yellow_2022_12_conforms | ]. split; [ exact yellow_2023_04_conforms | ].
  apply (standardized_schemas_agree no_string_cast yellow_2022_12 yellow_2023_04
           yellow_2022_12_conforms yellow_2023_04_conforms).
Defined.

(** [empty_input_raises] on a landing directory with a text file only. *)
Lemma empty_input_raises_witness :
  parquet_files world_without_parquet = Ok [] /\
  (forall st, standardize_loop no_string_cast world_without_parquet None [] st
              = (st, Ok None)) /\
  notebook no_string_cast world_without_parquet (initial None)
  = (mkState true None [SessionCreated],
     Raise (AttributeError "NoneType" "printSchema")).
Proof.
  assert (H : parquet_files world_without_parquet = Ok []) by reflexivity.
  split; [ exact H | ].
  apply (empty_input_raises no_string_cast world_without_parquet None H).
Defined.

(** C7, as stated, fails.  The table [timestamp_vendor] has the five cast
    columns, and [standardize_schema] raises on it: a timestamp column does
    not cast to [integer].  On [timestamp_vendor_no_passenger_count] a cast
    column is absent, and what is raised is the type mismatch of the first
    cast, not an error about the absent column. *)
Lemma standardize_schema_raises_with_columns_present :
  ~ (forall string_cast T,
       distinct_columns (schema T) ->
       (isOk (standardize_schema string_cast T) = false <-> required_absent T))
  /\
  ~ (forall string_cast T,
       distinct_columns (schema T) ->
       ((exists c, standardize_schema string_cast T
                   = Raise (AnalysisException (UNRESOLVED_COLUMN c)))
        <-> required_absent T)).
Proof.
  split.
  - intros H.
    assert (Hd : distinct_columns (schema timestamp_vendor))
      by (apply distinct_duplicated; reflexivity).
    destruct (proj1 (H no_string_cast timestamp_vendor Hd) eq_refl) as [c [t [Hin Habs]]].
    unfold cast_rules in Hin. simpl in Hin.
    repeat (destruct Hin as [ Hin | Hin ]; [ injection Hin as <- <- | ]);
      try contradiction Hin; vm_compute in Habs; discriminate Habs.
  - intros H.
    assert (Hd : distinct_columns (schema timestamp_vendor_no_passenger_count))
      by (apply distinct_duplicated; reflexivity).
    assert (Habs : required_absent timestamp_vendor_no_passenger_count).
    { exists "passenger_count", DoubleType. split; [ | reflexivity ].
      unfold cast_rules. simpl. tauto. }
    destruct (proj2 (H no_string_cast timestamp_vendor_no_passenger_count Hd) Habs)
      as [c Hc].
    vm_compute in Hc. discriminate Hc.
Qed.

(** C8, as stated, fails.  In [world_with_bad_file] the second parquet file
    lacks the column [passenger_count]: [standardize_schema] raises on it,
    the run ends there, and the session is still active. *)
Lemma session_left_active_on_error :
  ~ (forall string_cast w previous,
       released (fst (notebook string_cast w (initial previous)))).
Proof.
  intros H. destruct (H no_string_cast world_with_bad_file None) as [Ha _].
  vm_compute in Ha. discriminate Ha.
Qed.

(** ** The run on the sample files *)

Example standardize_yellow_2023_04 :
  standardize_schema no_string_cast yellow_2023_04 = Ok yellow_2023_04_standardized.
Proof. reflexivity. Qed.

Example bad_file_raises :
  snd (notebook no_string_cast world_with_bad_file (initial None))
  = Raise (AnalysisException (UNRESOLVED_COLUMN "passenger_count")).
Proof. reflexivity. Qed.

Example timestamp_vendor_raises :
  standardize_schema no_string_cast timestamp_vendor
  = Raise (AnalysisException (DATATYPE_MISMATCH TimestampNTZType IntegerType)).
Proof. reflexivity. Qed.

(** A table with both spellings, which no parquet file read gives: both
    columns end up under the name [airport_fee]. *)
Example both_spellings_give_two_columns :
  option_map columns
    (match standardize_schema no_string_cast
             (mkDF (schema no_passenger_count
                    ++ [mkField "passenger_count" LongType; mkField "Airport_fee" DoubleType])
                   [])
     with Ok df => Some df | Raise _ => None end)
  = Some ["VendorID"; "RatecodeID"; "PULocationID"; "DOLocationID"; "airport_fee";
          "passenger_count"; "airport_fee"].
Proof. reflexivity. Qed.

(** The two kinds of file, standardised and merged: the vendor identifiers
    of all three rows, as integers, and one airport-fee column. *)
Example merge_of_the_two_kinds :
  match standardize_schema no_string_cast yellow_2022_12,
        standardize_schema no_string_cast yellow_2023_04 with
  | Ok a, Ok b =>
      match merge no_string_cast [a; b] with
      | Ok (Some u) =>
          select ["VendorID"; "airport_fee"] u
          = [[IntV 2; dbl 0]; [IntV 1; Null]; [IntV 2; dbl 1]]
          /\ columns u = map name standard_schema
      | _ => False
      end
  | _, _ => False
  end.
Proof. vm_compute. split; reflexivity. Qed.

Example long_to_int_wraps :
  cast_value no_string_cast LongType IntegerType (LongV 4294967297) = IntV 1.
Proof. reflexivity. Qed.

Example columns_aligned_by_name :
  option_map rows
    (match merge no_string_cast [small_b; small_c] with Ok u => u | Raise _ => None end)
  = Some [[IntV 1; dbl 7; Null]; [IntV 2; dbl 3; dbl 0]; [IntV 2; dbl 9; dbl 1]].
Proof. reflexivity. Qed.

(** * Instances of the further properties *)

Lemma other_capitals_standardize :
  standardize_schema no_string_cast other_capitals = Ok other_capitals_standardized.
Proof. reflexivity. Defined.




(** X6 on the passenger counts of [yellow_2023_04.parquet]: [2] and [NULL]
    as [long] become [2.0] and [NULL] as [double]. *)
Lemma standardize_schema_cast_cells_witness :
  standardize_schema no_string_cast yellow_2023_04 = Ok yellow_2023_04_standardized /\
  In ("passenger_count", DoubleType) cast_rules /\
  nth_error (schema yellow_2023_04) 3 = Some (mkField "passenger_count" LongType) /\
  resolver "passenger_count" "passenger_count" = true /\
  nth_error (schema yellow_2023_04_standardized) 3
  = Some (mkField "passenger_count" DoubleType) /\
  column_at 3 yellow_2023_04_standardized
  = map (option_map (cast_value no_string_cast LongType DoubleType))
        (column_at 3 yellow_2023_04).
Proof.
  assert (H1 : standardize_schema no_string_cast yellow_2023_04
               = Ok yellow_2023_04_standardized) by reflexivity.
  assert (H2 : In ("passenger_count", DoubleType) cast_rules)
    by (unfold cast_rules; simpl; tauto).
  assert (H3 : nth_error (schema yellow_2023_04) 3
               = Some (mkField "passenger_count" LongType)) by reflexivity.
  assert (H4 : resolver "passenger_count" "passenger_count" = true) by reflexivity.
  repeat (split; [ assumption | ]).
  apply (standardize_schema_cast_cells no_string_cast yellow_2023_04
           yellow_2023_04_standardized "passenger_count" DoubleType 3
           (mkField "passenger_count" LongType) H1 H2 H3 H4).
Defined.


(** X8 on the three small tables. *)
Lemma merge_returns_witness :
  merge no_string_cast [small_a; small_b; small_c] = Ok (Some small_abc) /\
  exists t rest, [small_a; small_b; small_c] = t :: rest /\
                 columns small_abc = columns t /\
                 count small_abc = list_sum (map count [small_a; small_b; small_c]) /\
                 Forall (fun t' => List.length (columns t') = List.length (columns t)) rest.
Proof.
  assert (H : merge no_string_cast [small_a; small_b; small_c] = Ok (Some small_abc))
    by reflexivity.
  split; [ exact H | ].
  apply (merge_returns no_string_cast [small_a; small_b; small_c] small_abc H).
Defined.

(** X9 on a landing directory with two parquet files and a text file. *)
Lemma notebook_reads_only_parquet_witness :
  In (ReadParquet (os_path_join data_path "yellow_2023_04.parquet"))
     (trace (fst (notebook no_string_cast world_with_two_files (initial None)))) /\
  parquet_path world_with_two_files (os_path_join data_path "yellow_2023_04.parquet").
Proof.
  assert (H : In (ReadParquet (os_path_join data_path "yellow_2023_04.parquet"))
                 (trace (fst (notebook no_string_cast world_with_two_files
                                       (initial None))))).
  { vm_compute. repeat (first [ left; reflexivity | right ]). }
  split; [ exact H | ].
  apply (notebook_reads_only_parquet no_string_cast world_with_two_files None _ H).
Defined.

(** X10 on a landing directory whose second parquet file lacks a cast
    column. *)
Lemma notebook_writes_last_witness :
  snd (notebook no_string_cast world_with_bad_file (initial None))
  = Raise (AnalysisException (UNRESOLVED_COLUMN "passenger_count")) /\
  (forall p df,
      ~ In (WriteParquet p df)
           (trace (fst (notebook no_string_cast world_with_bad_file (initial None))))) /\
  (AnalysisException (UNRESOLVED_COLUMN "passenger_count") <> IOError raw_path ->
   destination (fst (notebook no_string_cast world_with_bad_file (initial None))) = None).
Proof.
  assert (H : snd (notebook no_string_cast world_with_bad_file (initial None))
              = Raise (AnalysisException (UNRESOLVED_COLUMN "passenger_count")))
    by reflexivity.
  split; [ exact H | ].
  apply (notebook_writes_last no_string_cast world_with_bad_file None _ H).
Defined.

(** X11 on a world without a landing directory. *)
Lemma missing_landing_raises_witness :
  landing world_without_landing = None /\
  notebook no_string_cast world_without_landing (initial None)
  = (mkState true None [SessionCreated], Raise (FileNotFoundError data_path)).
Proof.
  split; [ reflexivity | ].
  apply (missing_landing_raises no_string_cast world_without_landing None eq_refl).
Defined.

(** X12 on a landing directory with two parquet files and a text file. *)
Lemma notebook_returns_witness :
  notebook no_string_cast world_with_two_files (initial None)
  = (fst (notebook no_string_cast world_with_two_files (initial None)), Ok tt) /\
  exists files tables u,
    parquet_files world_with_two_files = Ok files /\ files <> [] /\
    Forall2 (standardized_from no_string_cast world_with_two_files) files tables /\
    merge no_string_cast tables = Ok (Some u) /\
    destination (fst (notebook no_string_cast world_with_two_files (initial None)))
    = Some u /\
    destination_writable world_with_two_files = true /\
    In (PrintShape (count u) (List.length (columns u)))
       (trace (fst (notebook no_string_cast world_with_two_files (initial None)))) /\
    In (WriteParquet raw_path u)
       (trace (fst (notebook no_string_cast world_with_two_files (initial None)))).
Proof.
  assert (H : notebook no_string_cast world_with_two_files (initial None)
              = (fst (notebook no_string_cast world_with_two_files (initial None)), Ok tt))
    by (vm_compute; reflexivity).
  split; [ exact H | ].
  apply (notebook_returns no_string_cast world_with_two_files None _ H).
Defined.





(** X15 on a table whose columns are spelt in other capitalisations. *)
Lemma standardize_schema_rows_witness :
  standardize_schema no_string_cast other_capitals = Ok other_capitals_standardized /\
  Forall2 (fun r r' => List.length r' = List.length r)
          (rows other_capitals) (rows other_capitals_standardized).
Proof.
  split; [ exact other_capitals_standardize | ].
  apply (standardize_schema_rows no_string_cast other_capitals
           other_capitals_standardized other_capitals_standardize).
Defined.
